(** * Roadtrip Weather Planning Tool: route building, table editing,
      weather windows and catalog maintenance

    A shallow embedding of [data_utils.py], [weather_utils.py] and the
    parser [extract_middle_target] of [plotting_utils.py].

    - A pandas frame is a list of records, in row order.
    - A dictionary keyed by city name is a [gmap string _].
    - Python exceptions are the [Raise] branch of [result].
    - Floating-point numbers (coordinates, distances, weather readings)
      are exact rationals [Q]; a reading rounded to one decimal is an
      exact number of tenths, and NaN is a value of its own.
    - The geodesic distance of geopy and the [Daily] query of Meteostat
      are collaborators outside the repository: they are Section
      variables of the functions that call them. *)

From Stdlib Require Import ZArith QArith Qround Qabs List String Ascii Lia.
From Stdlib Require Import DecimalString DecimalPos.
From stdpp Require Import base option list sorting gmap strings.

Open Scope string_scope.
Open Scope list_scope.
Open Scope Z_scope.

(** ** Exceptions *)

Inductive pyerr :=
| IndexError | KeyError | TypeError | ValueError | AttributeError | OverflowError.

Inductive result (A : Type) :=
| Ok (a : A)
| Raise (e : pyerr).
Arguments Ok {A} a.
Arguments Raise {A} e.

#[export] Instance result_ret : MRet result := fun A a => Ok a.
#[export] Instance result_bind : MBind result := fun A B f m =>
  match m with
  | Ok a => f a
  | Raise e => Raise e
  end.

Definition raises {A} (m : result A) : Prop := exists e, m = Raise e.

(** A [for] loop whose body may raise. *)
Fixpoint for_each {S I : Type} (body : S -> I -> result S) (s : S) (l : list I) : result S :=
  match l with
  | [] => Ok s
  | i :: l' => s' ← body s i; for_each body s' l'
  end.

(** [Series.apply]: the function is applied row by row, the first
    exception ends the pass. *)
Fixpoint apply_rows {A B : Type} (f : A -> result B) (l : list A) : result (list B) :=
  match l with
  | [] => Ok []
  | a :: l' => b ← f a; bs ← apply_rows f l'; Ok (b :: bs)
  end.

(** ** Cell values

    The cells of the route frame have dtype object.  [get_route] fills
    them with strings, the integer [0] and dates; a cell edit stores the
    value found in the editor state, which is decoded from JSON: null,
    an integer or a string ([json]).  Boolean and floating-point edit
    values are outside this embedding. *)

Inductive json :=
| JNull
| JInt (n : Z)
| JStr (s : string).

Inductive pyval :=
| VNone
| VInt (n : Z)
| VStr (s : string)
| VDate (ordinal : Z).

Definition of_json (j : json) : pyval :=
  match j with
  | JNull => VNone
  | JInt n => VInt n
  | JStr s => VStr s
  end.

Definition is_date (v : pyval) : bool :=
  match v with VDate _ => true | _ => false end.

(** ** datetime

    A [date] is its proleptic Gregorian ordinal, day 1 being
    0001-01-01 and [_MAXORDINAL] being 9999-12-31. *)

Definition _MAXORDINAL : Z := 3652059.

Definition valid_ordinal (o : Z) : Prop := 0 < o <= _MAXORDINAL.

(** [timedelta(days=v)] for the cell values of the embedding. *)
Definition timedelta (days : pyval) : result Z :=
  match days with
  | VInt n => if (Z.abs n <=? 999999999) then Ok n else Raise OverflowError
  | _ => Raise TypeError
  end.

(** [date.__add__] on the ordinal. *)
Definition date_shift (o delta : Z) : result Z :=
  let o' := o + delta in
  if (0 <? o') && (o' <=? _MAXORDINAL) then Ok o' else Raise OverflowError.

(** [d + timedelta] for a cell value: [TypeError] when the left operand
    is no date. *)
Definition date_add (d : pyval) (delta : Z) : result pyval :=
  match d with
  | VDate o => o' ← date_shift o delta; Ok (VDate o')
  | _ => Raise TypeError
  end.

Definition _is_leap (year : Z) : bool :=
  (year mod 4 =? 0) && (negb (year mod 100 =? 0) || (year mod 400 =? 0)).

Definition _DAYS_IN_MONTH (month : Z) : Z :=
  nth (Z.to_nat month) [-1; 31; 28; 31; 30; 31; 30; 31; 31; 30; 31; 30; 31] 0.

Definition _DAYS_BEFORE_MONTH (month : Z) : Z :=
  nth (Z.to_nat month) [-1; 0; 31; 59; 90; 120; 151; 181; 212; 243; 273; 304; 334] 0.

Definition _days_in_month (year month : Z) : Z :=
  if (month =? 2) && _is_leap year then 29 else _DAYS_IN_MONTH month.

Definition b2z (b : bool) : Z := if b then 1 else 0.

(** [_ord2ymd] of the standard library. *)
Definition _ord2ymd (n : Z) : Z * Z * Z :=
  let n := n - 1 in
  let n400 := n / 146097 in let n := n mod 146097 in
  let year := n400 * 400 + 1 in
  let n100 := n / 36524 in let n := n mod 36524 in
  let n4 := n / 1461 in let n := n mod 1461 in
  let n1 := n / 365 in let n := n mod 365 in
  let year := year + n100 * 100 + n4 * 4 + n1 in
  if (n1 =? 4) || (n100 =? 4) then (year - 1, 12, 31)
  else
    let leapyear := (n1 =? 3) && (negb (n4 =? 24) || (n100 =? 3)) in
    let month := Z.shiftr (n + 50) 5 in
    let preceding := _DAYS_BEFORE_MONTH month + b2z ((2 <? month) && leapyear) in
    if n <? preceding then
      let month := month - 1 in
      let preceding := preceding - (_DAYS_IN_MONTH month + b2z ((month =? 2) && leapyear)) in
      (year, month, n - preceding + 1)
    else (year, month, n - preceding + 1).

Definition date_day (o : Z) : Z := snd (_ord2ymd o).
Definition date_month (o : Z) : Z := snd (fst (_ord2ymd o)).
Definition date_year (o : Z) : Z := fst (fst (_ord2ymd o)).

(** [datetime(year, month, day)] raises [ValueError] outside the
    calendar; the years used here are within [MINYEAR..MAXYEAR]. *)
Definition check_date_fields (year month day : Z) : result unit :=
  if (1 <=? year) && (year <=? 9999) && (1 <=? month) && (month <=? 12)
     && (1 <=? day) && (day <=? _days_in_month year month)
  then Ok tt else Raise ValueError.

(** ** Strings *)

(** [s.split(sep)] for a non-empty separator: the occurrences are found
    from the left and do not overlap.  [skip] counts the characters of a
    separator just matched that are still to be dropped. *)
Fixpoint split_go (sep s : string) (skip : nat) (cur : string) : list string :=
  match s with
  | EmptyString => [cur]
  | String c s' =>
      match skip with
      | S k => split_go sep s' k cur
      | O =>
          if String.prefix sep s
          then cur :: split_go sep s' (pred (String.length sep)) ""
          else split_go sep s' 0 (cur +:+ String c "")
      end
  end.

Definition py_split (sep s : string) : list string := split_go sep s 0 "".

(** [l[k]] on a Python list, negative positions counted from the end. *)
Definition py_index {A} (l : list A) (k : Z) : result A :=
  let n := Z.of_nat (length l) in
  let k' := if k <? 0 then k + n else k in
  if (0 <=? k') && (k' <? n)
  then match l !! Z.to_nat k' with Some a => Ok a | None => Raise IndexError end
  else Raise IndexError.

Definition is_digit (c : ascii) : option Z :=
  let n := Z.of_N (N_of_ascii c) in
  if (48 <=? n) && (n <=? 57) then Some (n - 48) else None.

(** Digits of a decimal literal, with single underscores allowed between
    digits as in [int] and [float]. [after_digit] tells whether the
    previous character was a digit. *)
Fixpoint digits_go (s : string) (acc : Z) (after_digit : bool) : option Z :=
  match s with
  | EmptyString => if after_digit then Some acc else None
  | String c s' =>
      match is_digit c with
      | Some d => digits_go s' (10 * acc + d) true
      | None =>
          if Ascii.eqb c "_" && after_digit
          then match s' with
               | EmptyString => None
               | String c' _ =>
                   match is_digit c' with Some _ => digits_go s' acc false | None => None end
               end
          else None
      end
  end.

Fixpoint lstrip (s : string) : string :=
  match s with
  | String c s' => if Ascii.is_space c then lstrip s' else s
  | EmptyString => s
  end.

Fixpoint rstrip (s : string) : string :=
  match s with
  | EmptyString => EmptyString
  | String c s' =>
      match rstrip s' with
      | EmptyString => if Ascii.is_space c then EmptyString else String c EmptyString
      | r => String c r
      end
  end.

(** [s.strip()] *)
Definition strip (s : string) : string := rstrip (lstrip s).

(** [int(s)] for a string: surrounding white space, an optional sign and
    ASCII decimal digits; anything else is a [ValueError]. *)
Definition py_int (s : string) : result Z :=
  let body (t : string) :=
    match digits_go t 0 false with Some n => Ok n | None => Raise ValueError end in
  match strip s with
  | String "-" t => n ← body t; Ok (- n)
  | String "+" t => body t
  | t => body t
  end.

(** [str(n)] for an integer. *)
Definition py_str_int (n : Z) : string := NilZero.string_of_int (Z.to_int n).

(** ** Numbers *)

(** [round(x)] to an integer: halves go to the even neighbour. *)
Definition py_round (q : Q) : Z :=
  let f := Qfloor q in
  match (q - inject_Z f ?= 1 # 2)%Q with
  | Lt => f
  | Gt => f + 1
  | Eq => if Z.even f then f else f + 1
  end.

#[export] Instance Qle_decision (x y : Q) : Decision (x <= y)%Q :=
  match Qlt_le_dec y x with
  | left H => right (Qlt_not_le _ _ H)
  | right H => left H
  end.

(** [range(a, b)] *)
Definition py_range (a b : Z) : list Z :=
  (fun k => a + Z.of_nat k) <$> seq 0 (Z.to_nat (b - a)).

(** ** The coordinate table and the route frame *)

Record city_row := { country : string; city : string; lat : Q; lng : Q }.

Definition coords (r : city_row) : Q * Q := (lat r, lng r).

(** One row of [route_df]; the columns are, in this order, [city],
    [est_dist], [days_to_city] and [arrival_date]. *)
Record stop := {
  stop_city : pyval;
  est_dist : pyval;
  days_to_city : pyval;
  arrival_date : pyval
}.

Definition set_est_dist (v : pyval) (s : stop) : stop :=
  {| stop_city := stop_city s; est_dist := v;
     days_to_city := days_to_city s; arrival_date := arrival_date s |}.

Definition set_arrival_date (v : pyval) (s : stop) : stop :=
  {| stop_city := stop_city s; est_dist := est_dist s;
     days_to_city := days_to_city s; arrival_date := v |}.

(** ** Route Builder: [get_route] *)

Section RouteBuilder.

(** [get_lat_lng_dist x current_coords]: geopy's geodesic distance in
    kilometres between the tuple [x] and the Series [current_coords]
    selected from the frame (one coordinate pair per matching row). *)
Variable get_lat_lng_dist : Q * Q -> list (Q * Q) -> result Q.

Definition by_est_dist : relation (city_row * Q) :=
  fun a b => (a.2 <= b.2)%Q.

(** [sort_values(by='est_dist')] *)
Definition sort_values (l : list (city_row * Q)) : list (city_row * Q) :=
  merge_sort by_est_dist l.

(** The loop state: [next_cities], [current_city] and [route_dict].
    The keys of [route_dict] are [0 .. len-1] in insertion order, so
    the dictionary is the list of its values.  The [est_dist] column
    of [next_cities] is rewritten for every remaining row before it is
    read, so the state keeps the rows only. *)
Definition route_state : Type := list city_row * string * list stop.

Definition route_step (st : route_state) (i : nat) : result route_state :=
  let '(next_cities, current_city, route_dict) := st in
  let current_coords :=
    coords <$> filter (fun r => city r = current_city) next_cities in
  let next_cities := filter (fun r => city r <> current_city) next_cities in
  dists ← apply_rows (fun r => get_lat_lng_dist (coords r) current_coords) next_cities;
  let next_cities := sort_values (zip next_cities dists) in
  match next_cities with
  | [] => Raise IndexError
  | (r, dist) :: _ =>
      match route_dict !! i with
      | None => Raise KeyError
      | Some prev =>
          delta ← timedelta (days_to_city prev);
          arrival ← date_add (arrival_date prev) delta;
          let route_dict :=
            route_dict ++ [ {| stop_city := VStr (city r); est_dist := VInt 0;
                               days_to_city := VInt 0; arrival_date := arrival |} ] in
          let route_dict :=
            alter (set_est_dist (VStr (py_str_int (py_round dist) +:+ " km"))) i route_dict in
          Ok (next_cities.*1, city r, route_dict)
      end
  end.

Definition get_route (route_start_date : Z) (route_start_city : string)
    (panam_cities : list city_row) : result (list stop) :=
  let route_dict :=
    [ {| stop_city := VStr route_start_city; est_dist := VInt 0;
         days_to_city := VInt 0; arrival_date := VDate route_start_date |} ] in
  st ← for_each route_step (panam_cities, route_start_city, route_dict)
                (seq 0 (length panam_cities - 1));
  Ok st.2.

End RouteBuilder.

(** ** Historical dailies: [get_historical_dailies] *)

Definition START_YEAR : Z := 1991.
Definition END_YEAR : Z := 2020.

(** A float that may be NaN. *)
Definition float := option Q.

(** One row of a Meteostat [Daily] frame: the year of its index and the
    five columns read here. *)
Record daily_row := {
  index_year : Z;
  d_tavg : float; d_tmin : float; d_tmax : float; d_prcp : float; d_snow : float
}.

Record daily_avgs := {
  tavg : float; tmin : float; tmax : float; prcp : float; snow : float;
  available_years : nat;
  min_year_available : option Z;
  max_year_available : option Z
}.

Definition Qsum (l : list Q) : Q := foldr Qplus 0%Q l.

(** [Series.mean()]: NaN entries are skipped, an empty column gives NaN. *)
Definition mean (col : list float) : float :=
  match omap id col with
  | [] => None
  | v :: vs => Some (Qsum (v :: vs) / inject_Z (Z.of_nat (length (v :: vs))))%Q
  end.

Definition list_min (l : list Z) : option Z :=
  match l with [] => None | x :: l' => Some (foldr Z.min x l') end.
Definition list_max (l : list Z) : option Z :=
  match l with [] => None | x :: l' => Some (foldr Z.max x l') end.

Section Dailies.

(** [Daily(station_id, datetime(y, m, d), datetime(y, m, d)).fetch()] *)
Variable Daily_fetch : string -> Z -> Z -> Z -> result (list daily_row).

(** The years for which a daily frame is requested. *)
Definition queried_years : list Z := py_range START_YEAR END_YEAR.

Definition get_historical_dailies (station_id : string) (day month : Z)
    : result daily_avgs :=
  frames ← apply_rows
    (fun year => _ ← check_date_fields year month day;
                 Daily_fetch station_id year month day)
    queried_years;
  let last_available_dailies := concat frames in
  Ok {| tavg := mean (d_tavg <$> last_available_dailies);
        tmin := mean (d_tmin <$> last_available_dailies);
        tmax := mean (d_tmax <$> last_available_dailies);
        prcp := mean (d_prcp <$> last_available_dailies);
        snow := mean (d_snow <$> last_available_dailies);
        available_years := length last_available_dailies;
        min_year_available := list_min (index_year <$> last_available_dailies);
        max_year_available := list_max (index_year <$> last_available_dailies) |}.

End Dailies.

(** ** Weather Window strings *)

(** A float rounded to one decimal: NaN, or an exact number of tenths. *)
Inductive reading :=
| Nan
| Tenths (t : Z).

(** [Series.round(1)] on one entry. *)
Definition round1 (x : float) : reading :=
  match x with
  | None => Nan
  | Some q => Tenths (py_round (q * 10)%Q)
  end.

(** The text of a rounded float inside an f-string. *)
Definition repr_reading (r : reading) : string :=
  match r with
  | Nan => "nan"
  | Tenths t =>
      (if t <? 0 then "-" else "")
      +:+ py_str_int (Z.abs t / 10) +:+ "." +:+ py_str_int (Z.abs t mod 10)
  end.

(** [f'({pre}) {on} ({post})'] *)
Definition weather_window_str (pre on post : reading) : string :=
  "(" +:+ repr_reading pre +:+ ") " +:+ repr_reading on +:+ " (" +:+ repr_reading post +:+ ")".

Record weather_window := {
  w_tavg : string; w_tmin : string; w_tmax : string; w_prcp : string; w_snow : string
}.

Definition make_window (weather_pre weather_on weather_post : daily_avgs) : weather_window :=
  let cell (target : daily_avgs -> float) :=
    weather_window_str (round1 (target weather_pre)) (round1 (target weather_on))
                       (round1 (target weather_post)) in
  {| w_tavg := cell tavg; w_tmin := cell tmin; w_tmax := cell tmax;
     w_prcp := cell prcp; w_snow := cell snow |}.

(** ** The weather-normals cache *)

Record city_normal := {
  Station_ID : string;
  Normals : gmap string (gmap Z Q);
  Timespan : string;
  Missing : bool
}.

(** ** Route Table Editor: [update_route_table] *)

(** [st.session_state['route_table_edits']]: the deleted row positions
    and the edited cells, a dictionary from ["row:column"] to the new
    value, in insertion order. *)
Record table_edits := {
  deleted_rows : list Z;
  edited_cells : list (string * json)
}.

(** One row of the finalized frame: the route columns and the five
    weather columns merged onto them. *)
Record route_row := { base : stop; window : weather_window }.

(** [route_df.iloc[indices_to_keep]] with
    [indices_to_keep = [i for i in range(len(route_df)) if i not in deleted]] *)
Definition iloc_keep (deleted : list Z) (route_df : list stop) : list stop :=
  let indices_to_keep :=
    filter (fun i : nat => Z.of_nat i ∉ deleted) (seq 0 (length route_df)) in
  omap (fun i : nat => route_df !! i) indices_to_keep.

(** A position along an axis of length [n]: negative positions count
    from the end, anything else outside [0 .. n-1] is an [IndexError]. *)
Definition axis_pos (n : nat) (k : Z) : result nat :=
  let len := Z.of_nat n in
  if (0 <=? k) && (k <? len) then Ok (Z.to_nat k)
  else if (- len <=? k) && (k <? 0) then Ok (Z.to_nat (k + len))
  else Raise IndexError.

Definition set_column (j : nat) (v : pyval) (s : stop) : stop :=
  match j with
  | 0%nat => {| stop_city := v; est_dist := est_dist s;
                days_to_city := days_to_city s; arrival_date := arrival_date s |}
  | 1%nat => set_est_dist v s
  | 2%nat => {| stop_city := stop_city s; est_dist := est_dist s;
                days_to_city := v; arrival_date := arrival_date s |}
  | _ => set_arrival_date v s
  end.

(** [route_df.iloc[i, j] = v] on the four-column frame. *)
Definition iloc_set (route_df : list stop) (i j : Z) (v : pyval) : result (list stop) :=
  i' ← axis_pos (length route_df) i;
  j' ← axis_pos 4 j;
  Ok (alter (set_column j' v) i' route_df).

(** The two integers of a key ["row:column"]: [int(change.split(':')[0])]
    and [int(change.split(':')[1])]. *)
Definition key_fields (change : string) : result (Z * Z) :=
  let parts := py_split ":" change in
  row ← py_index parts 0;
  row ← py_int row;
  col ← py_index parts 1;
  col ← py_int col;
  Ok (row, col).

(** The body of the loop over [changes]: the frame column is the key's
    column minus one. *)
Definition apply_change (route_df : list stop) (entry : string * json) : result (list stop) :=
  let '(change, new_val) := entry in
  '(change_i, col) ← key_fields change;
  let change_j := col - 1 in
  iloc_set route_df change_i change_j (of_json new_val).

(** The body of the arrival-date loop, for [i] in [range(1, len)].  The
    frame is one block of dtype object, and the chained assignment
    [route_df.arrival_date.iloc[i] = ...] writes through the column view
    into the frame (pandas without copy-on-write). *)
Definition arrival_step (route_df : list stop) (i : nat) : result (list stop) :=
  match route_df !! (i - 1)%nat with
  | None => Raise IndexError
  | Some prev =>
      delta ← timedelta (days_to_city prev);
      arrival ← date_add (arrival_date prev) delta;
      Ok (alter (set_arrival_date arrival) i route_df)
  end.

Definition recompute_arrival_dates (route_df : list stop) : result (list stop) :=
  for_each arrival_step route_df (seq 1 (length route_df - 1)).

(** [pd.merge(route_df, weather, on='city', how='inner')]: the order of
    the left rows is kept, a row without a partner is dropped. *)
Definition merge_weather (route_df : list stop) (weather_info : gmap string weather_window)
    : list route_row :=
  omap (fun s =>
          match stop_city s with
          | VStr c => (fun w => {| base := s; window := w |}) <$> weather_info !! c
          | _ => None
          end) route_df.

Section RouteTableEditor.

Variable get_lat_lng_dist : Q * Q -> list (Q * Q) -> result Q.
Variable Daily_fetch : string -> Z -> Z -> Z -> result (list daily_row).
Variable city_normals : gmap string city_normal.

(** The body of the weather loop: one stop's entry of [weather_info]. *)
Definition weather_step (weather_info : gmap string weather_window) (s : stop)
    : result (gmap string weather_window) :=
  match arrival_date s with
  | VDate d =>
      let arrival_day := date_day d in
      let arrival_month := date_month d in
      arrival_date_pre ← date_shift d (- 3);
      arrival_date_post ← date_shift d 3;
      match stop_city s with
      | VStr c =>
          match city_normals !! c with
          | None => Raise KeyError
          | Some cn =>
              let station_id := Station_ID cn in
              weather_pre ← get_historical_dailies Daily_fetch station_id
                               (date_day arrival_date_pre) (date_month arrival_date_pre);
              weather_on ← get_historical_dailies Daily_fetch station_id
                               arrival_day arrival_month;
              weather_post ← get_historical_dailies Daily_fetch station_id
                               (date_day arrival_date_post) (date_month arrival_date_post);
              Ok (<[c := make_window weather_pre weather_on weather_post]> weather_info)
          end
      | _ => Raise KeyError
      end
  | _ => Raise AttributeError
  end.

(** [session_state] is [None] when the key ['route_table_edits'] is
    absent.  The function returns [None] when it falls off its end. *)
Definition update_route_table (route_start_date : Z) (route_start_city : string)
    (panam_cities : list city_row) (session_state : option table_edits)
    : result (option (list route_row)) :=
  route_df ← get_route get_lat_lng_dist route_start_date route_start_city panam_cities;
  match session_state with
  | Some edits =>
      let route_df := iloc_keep (deleted_rows edits) route_df in
      route_df ← for_each apply_change route_df (edited_cells edits);
      route_df ← recompute_arrival_dates route_df;
      weather_info ← for_each weather_step ∅ route_df;
      Ok (Some (merge_weather route_df weather_info))
  | None => Ok None
  end.

End RouteTableEditor.

(** ** Reading the middle value back: [extract_middle_target] *)

(** What [float] returns here: NaN or a decimal number. *)
Inductive pyfloat :=
| FNan
| FNum (q : Q).

Definition reading_value (r : reading) : pyfloat :=
  match r with
  | Nan => FNan
  | Tenths t => FNum (Qmake t 10)
  end.

Definition digits_value (s : string) : option Z :=
  Z.of_uint <$> NilZero.uint_of_string s.

(** The sign of a numeric literal and what follows it. *)
Definition split_sign (t : string) : bool * string :=
  match t with
  | String "-" u => (true, u)
  | String "+" u => (false, u)
  | _ => (false, t)
  end.

(** The unsigned part of a float literal: ["nan"], or digits with at
    most one point and a digit on one side of it at least. *)
Definition float_body (neg : bool) (u : string) : result pyfloat :=
  let sgn (n : Z) := if neg then - n else n in
  if String.eqb u "nan" then Ok FNan
  else
    match py_split "." u with
    | [a] =>
        match digits_value a with
        | Some n => Ok (FNum (inject_Z (sgn n)))
        | None => Raise ValueError
        end
    | [a; b] =>
        let part (x : string) := if String.eqb x "" then Some 0 else digits_value x in
        if String.eqb a "" && String.eqb b "" then Raise ValueError
        else
          match part a, part b with
          | Some na, Some nb =>
              let scale := Pos.pow 10 (Pos.of_nat (String.length b)) in
              if String.eqb b "" then Ok (FNum (inject_Z (sgn na)))
              else Ok (FNum (Qmake (sgn (na * Zpos scale + nb)) scale))
          | _, _ => Raise ValueError
          end
    | _ => Raise ValueError
    end.

(** [float(s)] for the literals written by [repr_reading] and for plain
    decimals: white space around, a sign, ["nan"], digits with at most
    one point.  Exponents, infinities and underscores are outside this
    embedding. *)
Definition py_float (s : string) : result pyfloat :=
  let '(neg, u) := split_sign (strip s) in
  float_body neg u.

(** [s.split(') ')[-1].split(' (')[0]] *)
Definition middle_text (s : string) : result string :=
  tail ← py_index (py_split ") " s) (- 1);
  py_index (py_split " (" tail) 0.

(** [x] is a frame row: a mapping from column name to cell. *)
Definition extract_middle_target (x : gmap string pyval) (target : string) : result pyfloat :=
  match x !! target with
  | None => Raise KeyError
  | Some (VStr s) => middle ← middle_text s; py_float middle
  | Some _ => Raise AttributeError
  end.

(** ** City Catalog Maintainer: [remove_city] *)

(** [l.remove(x)]: the first occurrence goes. *)
Fixpoint list_remove_first (x : string) (l : list string) : list string :=
  match l with
  | [] => []
  | y :: l' => if decide (y = x) then l' else y :: list_remove_first x l'
  end.

Definition remove_info_old_city (panam_cities : list city_row)
    (city_normals : gmap string city_normal) (old_city old_country : string)
    : list city_row * gmap string city_normal :=
  let city_normals :=
    if decide (old_city ∈ dom city_normals) then delete old_city city_normals
    else city_normals in
  let panam_cities :=
    filter (fun r => ~ (city r = old_city /\ country r = old_country)) panam_cities in
  (panam_cities, city_normals).

(** The catalog file is rewritten from the dictionary; the dictionary
    is what is modelled. *)
Definition remove_city (cities : gmap string (list string)) (panam_cities : list city_row)
    (city_normals : gmap string city_normal) (country city : string)
    : result (gmap string (list string) * list city_row * gmap string city_normal) :=
  let '(panam_cities, city_normals) :=
    remove_info_old_city panam_cities city_normals city country in
  match cities !! country with
  | None => Raise KeyError
  | Some l =>
      if decide (city ∈ l)
      then Ok (<[country := list_remove_first city l]> cities, panam_cities, city_normals)
      else Raise ValueError
  end.

(** ** Notions used to state the properties *)

(** The route that visiting the rows of [order] one after the other
    writes: every stop but the last carries the rounded distance to its
    successor. *)
Section RouteOfOrder.
Variable get_lat_lng_dist : Q * Q -> list (Q * Q) -> result Q.
Variable route_start_date : Z.

(** The distance computed for candidate [b] while [a] is the current
    city. *)
Definition leg (a b : city_row) : Q :=
  match get_lat_lng_dist (coords b) [coords a] with
  | Ok q => q
  | Raise _ => 0%Q
  end.

Definition km_text (q : Q) : pyval := VStr (py_str_int (py_round q) +:+ " km").

Definition mk_stop (a : city_row) (next : option city_row) : stop :=
  {| stop_city := VStr (city a);
     est_dist := match next with Some b => km_text (leg a b) | None => VInt 0 end;
     days_to_city := VInt 0;
     arrival_date := VDate route_start_date |}.

Fixpoint route_of (order : list city_row) : list stop :=
  match order with
  | [] => []
  | a :: rest => mk_stop a (head rest) :: route_of rest
  end.

(** Each stop is followed by a row nearest to it among the rows of
    [table] not visited so far. *)
Definition greedy (table order : list city_row) : Prop :=
  forall (i : nat) a b, order !! i = Some a -> order !! S i = Some b ->
    forall c, c ∈ table -> c ∉ take (S i) order -> (leg a b <= leg a c)%Q.

(** The loop invariant of [get_route] before iteration [i]. *)
Definition route_inv (table : list city_row) (r0 : city_row) (i : nat)
    (st : route_state) : Prop :=
  exists vis last nc,
    st = (nc, city last, route_of (vis ++ [last])) /\
    length vis = i /\ last ∈ nc /\ vis ++ nc ≡ₚ table /\
    head (vis ++ [last]) = Some r0 /\
    greedy table (vis ++ [last]).
End RouteOfOrder.

(** A stop as [get_route] leaves it. *)
Definition fresh_stop (d : Z) (s : stop) : Prop :=
  arrival_date s = VDate d /\ days_to_city s = VInt 0.

(** A date found in the arrival column after the cell edits is the
    start date: an edit can only put a JSON value there. *)
Definition start_or_edited (d : Z) (s : stop) : Prop :=
  forall o, arrival_date s = VDate o -> o = d.

(** The three columns shown in the editor. *)
Definition edit_columns (s : stop) : pyval * pyval * pyval :=
  (stop_city s, est_dist s, days_to_city s).

(** Stop [k+1] is reached [days_to_city] days after stop [k]. *)
Definition leg_dates_ok (df : list stop) (k : nat) : Prop :=
  exists s s' a n,
    df !! k = Some s /\ df !! S k = Some s' /\
    arrival_date s = VDate a /\ days_to_city s = VInt n /\
    arrival_date s' = VDate (a + n).

Fixpoint string_forallb (p : ascii -> bool) (s : string) : bool :=
  match s with
  | EmptyString => true
  | String c s' => p c && string_forallb p s'
  end.

(** [c] does not occur in [s]. *)
Definition free_of (c : ascii) (s : string) : bool :=
  string_forallb (fun x => negb (Ascii.eqb x c)) s.

Definition is_digit_char (c : ascii) : bool :=
  match is_digit c with Some _ => true | None => false end.

(** The characters written by [repr_reading]. *)
Definition float_char (c : ascii) : bool :=
  is_digit_char c || Ascii.eqb c "-" || Ascii.eqb c "." || Ascii.eqb c "n" || Ascii.eqb c "a".

(** A cache entry kept for a city that [load_data] or
    [add_info_new_city] left out of the coordinate table: its normals
    are empty. *)
Definition excluded_for_missing_data (cn : city_normal) : Prop :=
  Normals cn !! "tavg" = Some ∅.

(** Every row of the coordinate table has a cache entry, and every
    cache entry has a row unless it was excluded for missing data. *)
Definition consistent (panam_cities : list city_row)
    (city_normals : gmap string city_normal) : Prop :=
  (forall r, r ∈ panam_cities -> is_Some (city_normals !! city r)) /\
  (forall c cn, city_normals !! c = Some cn ->
     (exists r, r ∈ panam_cities /\ city r = c) \/ excluded_for_missing_data cn).

(** ** A small world to run the functions in

    Three cities on a line, a distance that is total on one-row
    selections, a station archive with one row for every year asked,
    2020 included. *)

Definition demo_dist (x : Q * Q) (current_coords : list (Q * Q)) : result Q :=
  match current_coords with
  | [c] => Ok (Qabs (x.1 - c.1) * 111 + Qabs (x.2 - c.2) * 111)%Q
  | _ => Raise ValueError
  end.

Definition city_A := {| country := "X"; city := "A"; lat := 0; lng := 0 |}.
Definition city_B := {| country := "X"; city := "B"; lat := 0; lng := 1 |}.
Definition city_C := {| country := "Y"; city := "C"; lat := 0; lng := 10 |}.
Definition demo_table : list city_row := [city_C; city_B; city_A].

Definition demo_fetch (station_id : string) (year month day : Z) : result (list daily_row) :=
  Ok [ {| index_year := year;
          d_tavg := Some (inject_Z (year - 1990) / 4)%Q;
          d_tmin := Some (- (1 # 3))%Q;
          d_tmax := Some (inject_Z day);
          d_prcp := Some 0%Q;
          d_snow := None |} ].

Definition demo_normal (station_id : string) : city_normal :=
  {| Station_ID := station_id; Normals := {[ "tavg" := {[ 1 := 20%Q ]} ]};
     Timespan := "1991-2020"; Missing := false |}.

Definition demo_normals : gmap string city_normal :=
  <["A" := demo_normal "sa"]> (<["B" := demo_normal "sb"]> (<["C" := demo_normal "sc"]> ∅)).

Definition demo_catalog : gmap string (list string) :=
  <["X" := ["A"; "B"]]> (<["Y" := ["C"]]> ∅).

(** 2023-01-01 *)
Definition demo_start : Z := 738521.

Definition demo_route : list stop :=
  [ {| stop_city := VStr "A"; est_dist := VStr "111 km";
       days_to_city := VInt 0; arrival_date := VDate 738521 |};
    {| stop_city := VStr "B"; est_dist := VStr "999 km";
       days_to_city := VInt 0; arrival_date := VDate 738521 |};
    {| stop_city := VStr "C"; est_dist := VInt 0;
       days_to_city := VInt 0; arrival_date := VDate 738521 |} ].

Definition demo_edits : table_edits :=
  {| deleted_rows := []; edited_cells := [("0:3", JInt 2); ("1:3", JInt 3)] |}.

Definition demo_final : list route_row :=
  match update_route_table demo_dist demo_fetch demo_normals demo_start "A" demo_table
          (Some demo_edits) with
  | Ok (Some r) => r
  | _ => []
  end.

(** Two cities of the same name in two countries share one cache entry. *)
Definition leon_mx := {| country := "Mexico"; city := "Leon"; lat := 21; lng := -101 |}.
Definition leon_ni := {| country := "Nicaragua"; city := "Leon"; lat := 12; lng := -86 |}.
Definition leon_table : list city_row := [leon_mx; leon_ni].
Definition leon_normals : gmap string city_normal := {[ "Leon" := demo_normal "s1" ]}.
Definition leon_catalog : gmap string (list string) :=
  <["Mexico" := ["Leon"]]> (<["Nicaragua" := ["Leon"]]> ∅).

(** ** More notions used to state properties *)


(** One row of the finalized frame as a Series: column name to cell. *)
Definition route_row_series (row : route_row) : gmap string pyval :=
  <["city" := stop_city (base row)]>
  (<["est_dist" := est_dist (base row)]>
  (<["days_to_city" := days_to_city (base row)]>
  (<["arrival_date" := arrival_date (base row)]>
  (<["tavg" := VStr (w_tavg (window row))]>
  (<["tmin" := VStr (w_tmin (window row))]>
  (<["tmax" := VStr (w_tmax (window row))]>
  (<["prcp" := VStr (w_prcp (window row))]>
  (<["snow" := VStr (w_snow (window row))]> ∅)))))))).

(** The weather targets of the finalized frame. *)
Definition weather_targets : list string := ["tavg"; "tmin"; "tmax"; "prcp"; "snow"].

(** A cell written by [make_window]. *)
Definition is_window_text (s : string) : Prop :=
  exists pre on post, s = weather_window_str pre on post.

(** The loop invariant of [get_route] that needs no assumption on the
    table: [vis] are the names visited before the current city. *)
Definition visit_inv (table : list city_row) (i : nat) (st : route_state) : Prop :=
  exists vis,
    length vis = i /\
    stop_city <$> st.2 = VStr <$> (vis ++ [st.1.2]) /\
    NoDup vis /\
    st.1.2 ∈ city <$> st.1.1 /\
    (forall x, x ∈ vis -> x ∉ city <$> st.1.1) /\
    vis ++ (city <$> st.1.1) ⊆+ city <$> table.

(** The shape of [route_dict] before iteration [i]: [i+1] stops, the
    last with the placeholder distance, the others with a distance
    text. *)
Definition shape_inv (i : nat) (st : route_state) : Prop :=
  length st.2 = S i /\
  (forall s, st.2 !! i = Some s -> est_dist s = VInt 0) /\
  (forall (k : nat) s, (k < i)%nat -> st.2 !! k = Some s ->
     exists q, est_dist s = VStr (py_str_int (py_round q) +:+ " km")).

(** ** Weather normals of one city: [get_normals_per_city] *)

(** A Meteostat [Normals] frame: its column names, and one row per
    month of the index with the value of every column. *)
Record normals_frame := {
  nf_columns : list string;
  nf_rows : list (Z * (string -> Q))
}.

(** A dictionary built from pairs, a later pair replacing an earlier
    one with the same key. *)
Definition dict_of_pairs {K V} `{Countable K} (l : list (K * V)) : gmap K V :=
  foldl (fun m p => <[p.1 := p.2]> m) ∅ l.

(** [DataFrame.to_dict()]: column name to (index to value). *)
Definition frame_to_dict (data : normals_frame) : gmap string (gmap Z Q) :=
  dict_of_pairs
    ((fun c => (c, dict_of_pairs ((fun r => (r.1, r.2 c)) <$> nf_rows data)))
       <$> nf_columns data).

Section Normals.

(** [Stations().nearby(lat, lon).fetch(1).index]: the identifiers of
    the stations found, one at most. *)
Variable nearby_stations : Q -> Q -> result (list string).

(** [Normals(station_id, start, end).fetch()] *)
Variable Normals_fetch : string -> Z -> Z -> result normals_frame.

Definition get_normals_per_city (x : city_row) : result city_normal :=
  station ← nearby_stations (lat x) (lng x);
  station_id ← py_index station 0;
  data ← Normals_fetch station_id START_YEAR END_YEAR;
  let missing := bool_decide (length (nf_rows data) = 0%nat) in
  Ok {| Station_ID := station_id;
        Normals := frame_to_dict data;
        Timespan := py_str_int START_YEAR +:+ "-" +:+ py_str_int END_YEAR;
        Missing := missing |}.

End Normals.

(** ** City Catalog Maintainer: [add_city] *)

(** One row of a country's geodata file. *)
Record geo_row := { g_city : string; g_state_id : string; g_lat : Q; g_lng : Q }.

(** The [country] column is added; for the United States the state
    code is appended to the city name. *)
Definition label_geodata (new_country : string) (geodata : list geo_row) : list city_row :=
  (fun g =>
     {| country := new_country;
        city := if decide (new_country = "United States of America")
                then g_city g +:+ "," +:+ g_state_id g
                else g_city g;
        lat := g_lat g; lng := g_lng g |}) <$> geodata.

(** What [check_geodata] prints: whether the counts agree, and the
    cities it lists when they do not. *)
Definition check_geodata (relevant_geodata : list city_row)
    (cities : gmap string (list string)) (country : string)
    : result (bool * list string) :=
  match cities !! country with
  | None => Raise KeyError
  | Some l =>
      let matched_cities := length relevant_geodata in
      let total_cities := length l in
      if decide (matched_cities <> total_cities)
      then Ok (false, filter (fun c => c ∉ city <$> relevant_geodata) l)
      else Ok (true, [])
  end.

Section AddCity.

(** [pd.read_csv('Geodata/' + country + '.csv')] *)
Variable read_geodata : string -> result (list geo_row).
Variable nearby_stations : Q -> Q -> result (list string).
Variable Normals_fetch : string -> Z -> Z -> result normals_frame.

(** [city_normals] is updated in place: the first component is the
    dictionary as the call leaves it, also when an exception ends the
    call; the second is what is returned for [panam_cities]. *)
Definition add_info_new_city (panam_cities : list city_row)
    (city_normals : gmap string city_normal) (new_city new_country : string)
    : gmap string city_normal * result (list city_row) :=
  match read_geodata new_country with
  | Raise e => (city_normals, Raise e)
  | Ok geodata =>
      let geodata := label_geodata new_country geodata in
      let relevant_geodata := filter (fun r => city r = new_city) geodata in
      match relevant_geodata !! 0%nat with
      | None => (city_normals, Raise IndexError)
      | Some x =>
          match get_normals_per_city nearby_stations Normals_fetch x with
          | Raise e => (city_normals, Raise e)
          | Ok cn =>
              let city_normals := <[new_city := cn]> city_normals in
              match Normals cn !! "tavg" with
              | None => (city_normals, Raise KeyError)
              | Some tavg =>
                  if decide (size tavg = 0%nat)
                  then (city_normals, Ok panam_cities)
                  else (city_normals, Ok (panam_cities ++ relevant_geodata))
              end
          end
      end
  end.

(** The catalog list is appended to in place and written out before the
    geodata is read: the first component is the catalog as the call
    leaves it, the second the cache, the third what is returned for
    [panam_cities]. *)
Definition add_city (cities : gmap string (list string)) (panam_cities : list city_row)
    (city_normals : gmap string city_normal) (country city : string)
    : gmap string (list string) * gmap string city_normal * result (list city_row) :=
  match cities !! country with
  | None => (cities, city_normals, Raise KeyError)
  | Some l =>
      let cities := <[country := l ++ [city]]> cities in
      let '(city_normals, panam_cities) :=
        add_info_new_city panam_cities city_normals city country in
      (cities, city_normals, panam_cities)
  end.

End AddCity.

(** ** Precipitation axis: [get_max_prcp] *)

#[export] Instance Qlt_decision (x y : Q) : Decision (x < y)%Q :=
  match Qlt_le_dec x y with
  | left H => left H
  | right H => right (Qle_not_lt _ _ H)
  end.

(** [max(l)] on numbers: the first of the largest items; [ValueError]
    on an empty list. *)
Definition py_max (l : list Q) : result Q :=
  match l with
  | [] => Raise ValueError
  | x :: l' => Ok (foldl (fun m y => if decide (m < y)%Q then y else m) x l')
  end.

(** The items of the list comprehension: one for every city whose
    precipitation normals are not empty. *)
Definition city_max_prcp (entry : string * city_normal) : result (option Q) :=
  match Normals entry.2 !! "prcp" with
  | None => Raise KeyError
  | Some p =>
      if decide (0 < size p)%nat
      then m ← py_max (map_to_list p).*2; Ok (Some m)
      else Ok None
  end.

Definition get_max_prcp (city_normals : gmap string city_normal) : result Q :=
  per_city ← apply_rows city_max_prcp (map_to_list city_normals);
  max_prcp ← py_max (omap id per_city);
  Ok (max_prcp + 10)%Q.

(** ** What a successful weather pass has done *)

(** The query for the day and month of the date [o] was answered. *)
Definition answered (fetch : string -> Z -> Z -> Z -> result (list daily_row))
    (station_id : string) (o : Z) : Prop :=
  exists avgs, get_historical_dailies fetch station_id (date_day o) (date_month o) = Ok avgs.

Definition made_window (w : weather_window) : Prop :=
  exists weather_pre weather_on weather_post,
    w = make_window weather_pre weather_on weather_post.

(** The stop has an arrival date and a city of the cache, and the three
    queries of its weather window were answered. *)
Definition stop_answered (fetch : string -> Z -> Z -> Z -> result (list daily_row))
    (normals : gmap string city_normal) (w : gmap string weather_window) (s : stop) : Prop :=
  exists o c cn,
    arrival_date s = VDate o /\ stop_city s = VStr c /\
    normals !! c = Some cn /\ is_Some (w !! c) /\
    answered fetch (Station_ID cn) (o - 3) /\
    answered fetch (Station_ID cn) o /\
    answered fetch (Station_ID cn) (o + 3).

(** Two frames that agree on their first [a] rows and on the three
    editor columns of every row. *)
Definition agree_upto (a : nat) (df1 df2 : list stop) : Prop :=
  take a df1 = take a df2 /\ edit_columns <$> df1 = edit_columns <$> df2.

(** ** A small world for the catalog functions

    A geodata file with two cities, one station, and a normals frame of
    two months with a temperature and a precipitation column. *)

Definition demo_geodata : list geo_row :=
  [ {| g_city := "D"; g_state_id := "dd"; g_lat := 0; g_lng := 2 |};
    {| g_city := "E"; g_state_id := "ee"; g_lat := 0; g_lng := 3 |} ].

Definition demo_read_geodata (new_country : string) : result (list geo_row) :=
  Ok demo_geodata.

Definition demo_nearby (lat lng : Q) : result (list string) := Ok ["sd"].

Definition demo_frame : normals_frame :=
  {| nf_columns := ["tavg"; "prcp"];
     nf_rows := [ (1, fun c => if decide (c = "tavg") then 20%Q else 35%Q);
                  (2, fun c => if decide (c = "tavg") then 21%Q else 5%Q) ] |}.

Definition demo_normals_fetch (station_id : string) (start_year end_year : Z)
    : result normals_frame :=
  Ok demo_frame.

Definition city_D := {| country := "X"; city := "D"; lat := 0; lng := 2 |}.

Definition demo_new_normal : city_normal :=
  {| Station_ID := "sd"; Normals := frame_to_dict demo_frame;
     Timespan := "1991-2020"; Missing := false |}.

(** The outcome of adding the city D of the geodata, and of adding a
    city Z that the geodata does not have. *)
Definition demo_added :=
  add_city demo_read_geodata demo_nearby demo_normals_fetch
           demo_catalog demo_table demo_normals "X" "D".

Definition demo_failed :=
  add_city demo_read_geodata demo_nearby demo_normals_fetch
           demo_catalog demo_table demo_normals "X" "Z".


(** The finalized demo route when the editor reports no edit. *)
Definition demo_plain : list route_row :=
  match update_route_table demo_dist demo_fetch demo_normals demo_start "A" demo_table
          (Some {| deleted_rows := []; edited_cells := [] |}) with
  | Ok (Some r) => r
  | _ => []
  end.

(** * Properties *)

(** A decidable fact about concrete data, settled by evaluation. *)
Ltac by_evaluation := apply (bool_decide_unpack _); vm_compute; reflexivity.

Lemma apply_rows_total {A B} (f : A -> result B) (g : A -> B) l :
  (forall a, a ∈ l -> f a = Ok (g a)) -> apply_rows f l = Ok (g <$> l).
Proof.
  induction l as [|a l IH]; intros H; simpl; [done|].
  rewrite (H a) by constructor. simpl.
  rewrite IH; [done|]. intros b Hb. apply H. by constructor.
Qed.

#[export] Instance by_est_dist_total : Total by_est_dist.
Proof.
  intros a b. unfold by_est_dist.
  destruct (Qlt_le_dec a.2 b.2) as [H|H]; [left; by apply Qlt_le_weak|by right].
Qed.

#[export] Instance by_est_dist_trans : Transitive by_est_dist.
Proof. intros a b c. unfold by_est_dist. apply Qle_trans. Qed.

Lemma sort_values_perm l : sort_values l ≡ₚ l.
Proof. apply merge_sort_Permutation. Qed.

Lemma sort_values_head_min l x rest y :
  sort_values l = x :: rest -> y ∈ l -> (x.2 <= y.2)%Q.
Proof.
  intros Hs Hy.
  assert (Hsorted : StronglySorted by_est_dist (sort_values l))
    by apply (StronglySorted_merge_sort _).
  rewrite Hs in Hsorted. apply StronglySorted_inv in Hsorted as [_ Hall].
  assert (Hy' : y ∈ x :: rest) by (rewrite <- Hs, sort_values_perm; done).
  apply elem_of_cons in Hy' as [->|Hy'].
  - apply Qle_refl.
  - rewrite Forall_forall in Hall. by apply Hall.
Qed.


Section RouteSpec.
Variable dist : Q * Q -> list (Q * Q) -> result Q.
Variable d : Z.
Variable table : list city_row.
Hypothesis Hnodup : NoDup (city <$> table).
Hypothesis Hdist : forall a b, a ∈ table -> b ∈ table -> a <> b ->
  exists q, dist (coords b) [coords a] = Ok q.
Hypothesis Hd : valid_ordinal d.

Lemma length_route_of order : length (route_of dist d order) = length order.
Proof. induction order; simpl; congruence. Qed.

Lemma route_of_lookup order (i : nat) a :
  order !! i = Some a -> route_of dist d order !! i = Some (mk_stop dist d a (order !! S i)).
Proof.
  revert i. induction order as [|x order IH]; intros i; [done|].
  destruct i as [|i]; simpl.
  - intros [= ->]. by destruct order.
  - apply IH.
Qed.

Lemma route_of_snoc vis last b :
  route_of dist d (vis ++ [last; b]) =
  alter (set_est_dist (km_text (leg dist last b))) (length vis)
        (route_of dist d (vis ++ [last]) ++ [mk_stop dist d b None]).
Proof.
  induction vis as [|a vis IH]; simpl; [done|].
  rewrite IH. f_equal. by destruct vis.
Qed.

Lemma greedy_snoc vis last b :
  greedy dist table (vis ++ [last]) ->
  (forall c, c ∈ table -> c ∉ vis ++ [last] -> (leg dist last b <= leg dist last c)%Q) ->
  greedy dist table ((vis ++ [last]) ++ [b]).
Proof.
  intros Hg Hnew i a b' Hi HSi c Hc Hnot.
  assert (Hlen : length (vis ++ [last]) = S (length vis))
    by (rewrite length_app; simpl; lia).
  destruct (decide (S i < length (vis ++ [last]))%nat) as [Hlt|Hge].
  - rewrite lookup_app_l in Hi by lia. rewrite lookup_app_l in HSi by lia.
    rewrite take_app_le in Hnot by lia. by eapply Hg.
  - assert (S i = length (vis ++ [last])) as HSi'.
    { apply lookup_lt_Some in HSi. rewrite length_app in HSi. simpl in HSi. lia. }
    rewrite HSi' in HSi, Hnot.
    rewrite lookup_app_r in HSi by lia. rewrite Nat.sub_diag in HSi.
    injection HSi as <-.
    rewrite take_app_length in Hnot.
    assert (i = length vis) as -> by lia.
    rewrite lookup_app_l in Hi by lia.
    rewrite lookup_app_r in Hi by lia. rewrite Nat.sub_diag in Hi.
    injection Hi as <-. by apply Hnew.
Qed.

Lemma filter_city_absent (l : list city_row) (c : string) :
  c ∉ city <$> l ->
  filter (fun r => city r = c) l = [] /\ filter (fun r => city r <> c) l = l.
Proof.
  induction l as [|z l IH]; intros Hc; [done|].
  rewrite fmap_cons in Hc. apply not_elem_of_cons in Hc as [Hz Hc].
  destruct (IH Hc) as [IH1 IH2].
  rewrite filter_cons_False by congruence.
  rewrite filter_cons_True by congruence. by rewrite IH1, IH2.
Qed.

Lemma filter_city_eq (l : list city_row) x :
  NoDup (city <$> l) -> x ∈ l -> filter (fun r => city r = city x) l = [x].
Proof.
  induction l as [|y l IH]; intros Hnd Hx; [by apply elem_of_nil in Hx|].
  rewrite fmap_cons in Hnd. apply NoDup_cons in Hnd as [Hy Hnd].
  apply elem_of_cons in Hx as [->|Hx].
  - rewrite filter_cons_True by done. f_equal.
    by apply filter_city_absent.
  - rewrite filter_cons_False.
    + by apply IH.
    + intros Heq. apply Hy. rewrite Heq. by apply list_elem_of_fmap_2.
Qed.

Lemma filter_city_ne_perm (l : list city_row) x :
  NoDup (city <$> l) -> x ∈ l -> l ≡ₚ x :: filter (fun r => city r <> city x) l.
Proof.
  induction l as [|y l IH]; intros Hnd Hx; [by apply elem_of_nil in Hx|].
  rewrite fmap_cons in Hnd. apply NoDup_cons in Hnd as [Hy Hnd].
  apply elem_of_cons in Hx as [->|Hx].
  - rewrite filter_cons_False by (intros H; by apply H).
    constructor. by rewrite (proj2 (filter_city_absent l (city y) Hy)).
  - rewrite filter_cons_True.
    + rewrite (IH Hnd Hx) at 1. apply perm_swap.
    + intros Heq. apply Hy. rewrite Heq. by apply list_elem_of_fmap_2.
Qed.

Lemma route_step_inv r0 (i : nat) st :
  route_inv dist d table r0 i st -> (S i < length table)%nat ->
  exists st', route_step dist st i = Ok st' /\ route_inv dist d table r0 (S i) st'.
Proof.
  intros (vis & last & nc & -> & Hlen & Hlast & Hperm & Hhead & Hg) Hi.
  assert (Hnd : NoDup (city <$> nc)).
  { rewrite <- Hperm in Hnodup. rewrite fmap_app in Hnodup.
    by apply NoDup_app in Hnodup as (_ & _ & ?). }
  assert (Hsub : forall x, x ∈ nc -> x ∈ table).
  { intros x Hx. rewrite <- Hperm. apply elem_of_app. by right. }
  unfold route_step.
  rewrite (filter_city_eq nc last Hnd Hlast).
  set (nc' := filter (fun r => city r <> city last) nc).
  assert (Hnc : nc ≡ₚ last :: nc') by by apply filter_city_ne_perm.
  assert (Hnc'sub : forall x, x ∈ nc' -> x ∈ table /\ x <> last).
  { intros x Hx. apply list_elem_of_filter in Hx as [Hne Hx].
    split; [by apply Hsub|congruence]. }
  rewrite (apply_rows_total _ (leg dist last)).
  2:{ intros a Ha. apply Hnc'sub in Ha as [Ha Hne].
      destruct (Hdist last a) as [q Hq]; [by apply Hsub|done|done|].
      unfold leg. simpl. by rewrite Hq. }
  simpl.
  assert (Hzip : zip nc' (leg dist last <$> nc') = (fun r => (r, leg dist last r)) <$> nc').
  { generalize nc'. intros l. induction l as [|x l IH]; [done|].
    rewrite !fmap_cons. simpl. f_equal. apply IH. }
  rewrite Hzip.
  destruct (sort_values ((fun r => (r, leg dist last r)) <$> nc')) as [|[b q] rest] eqn:Hs.
  { exfalso.
    assert (Hl : length nc' = 0%nat).
    { rewrite <- (length_fmap (fun r => (r, leg dist last r))).
      rewrite <- (sort_values_perm _), Hs. done. }
    assert (length table = S (length vis)).
    { rewrite <- Hperm, length_app, Hnc. simpl. lia. }
    lia. }
  assert (Hbin : (b, q) ∈ (fun r => (r, leg dist last r)) <$> nc').
  { rewrite <- (sort_values_perm _), Hs. by constructor. }
  apply list_elem_of_fmap in Hbin as (b' & [= <- ->] & Hb).
  rewrite route_of_lookup with (a := last).
  2:{ rewrite lookup_app_r by lia. by rewrite Hlen, Nat.sub_diag. }
  simpl.
  assert (Hdate : date_shift d 0 = Ok d).
  { unfold date_shift. rewrite Z.add_0_r. destruct Hd as [H1 H2].
    apply Z.ltb_lt in H1. apply Z.leb_le in H2. by rewrite H1, H2. }
  rewrite Hdate. simpl.
  eexists. split; [reflexivity|].
  exists (vis ++ [last]), b, (((b, leg dist last b) :: rest).*1).
  assert (Hfst : ((b, leg dist last b) :: rest).*1 ≡ₚ nc').
  { rewrite <- Hs, sort_values_perm. rewrite <- list_fmap_compose.
    generalize nc'. intros l. induction l as [|x l IH]; [done|].
    rewrite !fmap_cons. simpl. by constructor. }
  split.
  { f_equal. rewrite <- Hlen. rewrite <- (assoc_L (++)). simpl.
    by rewrite route_of_snoc. }
  split; [rewrite length_app; simpl; lia|].
  split; [simpl; by constructor|].
  split.
  { rewrite Hfst, <- Hperm, Hnc. rewrite <- (assoc_L (++)). done. }
  split.
  { destruct vis; simpl in *; done. }
  apply greedy_snoc; [done|].
  intros c Hc Hnot.
  assert (Hc' : c ∈ nc').
  { rewrite <- Hperm, Hnc in Hc.
    apply elem_of_app in Hc as [Hc|Hc].
    - exfalso. apply Hnot. apply elem_of_app. by left.
    - apply elem_of_cons in Hc as [->|Hc]; [|done].
      exfalso. apply Hnot. apply elem_of_app. right. by constructor. }
  apply (sort_values_head_min _ _ _ (c, leg dist last c)) in Hs; [done|].
  by apply (list_elem_of_fmap_2 (fun r => (r, leg dist last r))).
Qed.

Lemma route_loop_inv r0 (m i : nat) st :
  route_inv dist d table r0 i st -> (i + m < length table)%nat ->
  exists st', for_each (route_step dist) st (seq i m) = Ok st' /\ route_inv dist d table r0 (i + m) st'.
Proof.
  revert i st. induction m as [|m IH]; intros i st Hinv Hlt; simpl.
  - exists st. by rewrite Nat.add_0_r.
  - destruct (route_step_inv r0 i st Hinv) as (st1 & -> & Hinv1); [lia|].
    simpl. destruct (IH (S i) st1 Hinv1) as (st' & -> & Hinv'); [lia|].
    exists st'. split; [done|]. by replace (i + S m)%nat with (S i + m)%nat by lia.
Qed.

Lemma get_route_order r0 :
  r0 ∈ table ->
  exists order,
    get_route dist d (city r0) table = Ok (route_of dist d order) /\
    order ≡ₚ table /\ head order = Some r0 /\ greedy dist table order.
Proof.
  intros Hr0.
  assert (Hinv0 : route_inv dist d table r0 0 (table, city r0, route_of dist d [r0])).
  { exists [], r0, table. repeat split; done. }
  assert (Hpos : (0 < length table)%nat).
  { destruct table; [by apply elem_of_nil in Hr0|simpl; lia]. }
  destruct (route_loop_inv r0 (length table - 1) 0 _ Hinv0)
    as (st' & Hloop & (vis & last & nc & -> & Hlen & Hlast & Hperm & Hhead & Hg)); [lia|].
  exists (vis ++ [last]).
  assert (Hdef : get_route dist d (city r0) table =
                 (st ← for_each (route_step dist) (table, city r0, route_of dist d [r0])
                                (seq 0 (length table - 1)); Ok st.2)) by reflexivity.
  rewrite Hdef, Hloop. simpl. split; [done|].
  split; [|done].
  assert (Hnc : length nc = 1%nat).
  { apply Permutation_length in Hperm. rewrite length_app in Hperm. lia. }
  destruct nc as [|x [|y nc]]; simpl in Hnc; try lia.
  apply list_elem_of_singleton in Hlast as ->. done.
Qed.
End RouteSpec.


Lemma route_of_cities dist d order :
  stop_city <$> route_of dist d order = (fun r => VStr (city r)) <$> order.
Proof.
  induction order as [|a order IH]; [done|].
  simpl route_of. rewrite !fmap_cons. f_equal. exact IH.
Qed.


Lemma get_route_short_table dist d c t :
  (length t <= 1)%nat ->
  get_route dist d c t =
    Ok [ {| stop_city := VStr c; est_dist := VInt 0;
            days_to_city := VInt 0; arrival_date := VDate d |} ].
Proof. destruct t as [|r [|r' t]]; simpl; [done|done|lia]. Qed.

(** C2: for a coordinate table with distinct city names and a start city
    present in it, [get_route] returns a route whose cities are those of
    the table, each exactly once (a permutation without repetition), whose
    first stop is the start city, and which has as many stops as the table
    has rows: a single-city table gives a one-stop route.  The start date
    is a date, and the distance function answers for every pair of
    distinct rows. *)
Theorem get_route_visits_each_city_once
    (dist : Q * Q -> list (Q * Q) -> result Q) (d : Z) (start : string)
    (table : list city_row) :
  NoDup (city <$> table) ->
  start ∈ city <$> table ->
  valid_ordinal d ->
  (forall a b, a ∈ table -> b ∈ table -> a <> b ->
     exists q, dist (coords b) [coords a] = Ok q) ->
  exists route,
    get_route dist d start table = Ok route /\
    stop_city <$> route ≡ₚ (fun r => VStr (city r)) <$> table /\
    NoDup (stop_city <$> route) /\
    stop_city <$> head route = Some (VStr start) /\
    length route = length table /\
    (length table = 1%nat ->
     route = [ {| stop_city := VStr start; est_dist := VInt 0;
                  days_to_city := VInt 0; arrival_date := VDate d |} ]).
Proof.
  intros Hnd Hstart Hd Hdist.
  apply list_elem_of_fmap in Hstart as (r0 & -> & Hr0).
  destruct (get_route_order dist d table Hnd Hdist Hd r0 Hr0)
    as (order & Hroute & Hperm & Hhead & _).
  exists (route_of dist d order). split; [done|].
  rewrite route_of_cities. split; [by rewrite Hperm|].
  split.
  { rewrite Hperm. rewrite (list_fmap_compose city VStr).
    apply NoDup_fmap_2; [|done]. by intros x y [= ->]. }
  split.
  { destruct order as [|a order]; simpl in *; congruence. }
  split.
  { rewrite length_route_of. by apply Permutation_length. }
  intros Hone.
  rewrite get_route_short_table in Hroute by lia. by injection Hroute as <-.
Qed.


Lemma bind_Ok {A B} (m : result A) (f : A -> result B) b :
  (m ≫= f) = Ok b -> exists a, m = Ok a /\ f a = Ok b.
Proof. destruct m as [a|e]; simpl; [eauto|done]. Qed.

Lemma for_each_inv {S I} (P : S -> Prop) (body : S -> I -> result S) l :
  (forall s i s', P s -> body s i = Ok s' -> P s') ->
  forall s s', P s -> for_each body s l = Ok s' -> P s'.
Proof.
  intros Hbody. induction l as [|i l IH]; intros s s' Hs; simpl.
  - by intros [= <-].
  - intros H. apply bind_Ok in H as (s1 & H1 & H2). eauto.
Qed.

(** *** What every route of [get_route] looks like *)

Lemma date_shift_0 d o : date_shift d 0 = Ok o -> o = d.
Proof.
  unfold date_shift. rewrite Z.add_0_r.
  destruct ((0 <? d) && (d <=? _MAXORDINAL)); by intros [= <-].
Qed.

Lemma route_step_fresh dist d st i st' :
  Forall (fresh_stop d) st.2 -> route_step dist st i = Ok st' -> Forall (fresh_stop d) st'.2.
Proof.
  destruct st as [[nc cur] rd]. simpl. intros Hall. unfold route_step.
  intros H. apply bind_Ok in H as (dists & _ & H).
  destruct (sort_values _) as [|[r q] rest]; [done|].
  destruct (rd !! i) as [prev|] eqn:Hprev; [|done].
  assert (Hp : fresh_stop d prev).
  { rewrite Forall_forall in Hall. apply Hall. by eapply list_elem_of_lookup_2. }
  destruct Hp as [Ha Hd]. rewrite Ha, Hd in H. simpl in H.
  apply bind_Ok in H as (arr & Harr & H).
  apply bind_Ok in Harr as (o & Ho & [= <-]). apply date_shift_0 in Ho as ->.
  simpl in H. injection H as <-. simpl.
  apply Forall_alter; [|by intros x _ [??]].
  apply Forall_app. split; [done|]. by repeat constructor.
Qed.

Lemma get_route_fresh dist d c t route :
  get_route dist d c t = Ok route -> Forall (fresh_stop d) route.
Proof.
  unfold get_route. intros H. apply bind_Ok in H as (st & Hst & [= <-]).
  revert Hst. apply (for_each_inv (fun st => Forall (fresh_stop d) st.2)).
  - intros s i s'. apply route_step_fresh.
  - simpl. by repeat constructor.
Qed.

(** *** Deletion and cell edits *)

Lemma iloc_keep_subseteq deleted route_df s :
  s ∈ iloc_keep deleted route_df -> s ∈ route_df.
Proof.
  unfold iloc_keep. intros H. apply list_elem_of_omap in H as (i & _ & Hi).
  by eapply list_elem_of_lookup_2.
Qed.

Lemma axis_pos_out n k :
  k < - Z.of_nat n \/ Z.of_nat n <= k -> axis_pos n k = Raise IndexError.
Proof.
  intros H. unfold axis_pos.
  replace ((0 <=? k) && (k <? Z.of_nat n)) with false.
  2:{ symmetry. apply andb_false_iff.
      destruct H; [left; apply Z.leb_gt; lia|right; apply Z.ltb_ge; lia]. }
  replace ((- Z.of_nat n <=? k) && (k <? 0)) with false; [done|].
  symmetry. apply andb_false_iff.
  destruct H; [left; apply Z.leb_gt; lia|right; apply Z.ltb_ge; lia].
Qed.


Lemma apply_change_shape route_df entry df' :
  apply_change route_df entry = Ok df' ->
  exists (i j : nat), df' = alter (set_column j (of_json entry.2)) i route_df.
Proof.
  destruct entry as [change v]. unfold apply_change. intros H.
  apply bind_Ok in H as ([ci col] & _ & H). unfold iloc_set in H.
  apply bind_Ok in H as (i & _ & H). apply bind_Ok in H as (j & _ & [= <-]).
  by exists i, j.
Qed.

Lemma apply_change_length route_df entry df' :
  apply_change route_df entry = Ok df' -> length df' = length route_df.
Proof.
  intros H. apply apply_change_shape in H as (i & j & ->). apply length_alter.
Qed.

Lemma set_column_start_or_edited d j v s :
  start_or_edited d s -> start_or_edited d (set_column j (of_json v) s).
Proof.
  intros Hs o. destruct j as [|[|[|j]]]; simpl; try apply Hs.
  all: destruct v; simpl; done.
Qed.

Lemma apply_changes_start_or_edited d entries route_df df' :
  Forall (start_or_edited d) route_df ->
  for_each apply_change route_df entries = Ok df' ->
  Forall (start_or_edited d) df'.
Proof.
  apply for_each_inv. intros s e s' Hs Hstep.
  apply apply_change_shape in Hstep as (i & j & ->).
  apply Forall_alter; [done|]. intros x _. apply set_column_start_or_edited.
Qed.

(** *** The arrival-date pass *)

Lemma timedelta_Ok v n : timedelta v = Ok n -> v = VInt n.
Proof.
  destruct v as [|m| |]; simpl; try done.
  destruct (Z.abs m <=? 999999999); by intros [= <-].
Qed.

Lemma date_add_Ok v n w :
  date_add v n = Ok w -> exists a, v = VDate a /\ w = VDate (a + n).
Proof.
  destruct v as [| | |a]; simpl; try done. unfold date_shift.
  destruct ((0 <? a + n) && (a + n <=? _MAXORDINAL)); simpl; [|done].
  intros [= <-]. by exists a.
Qed.

Lemma arrival_step_Ok df (i : nat) df' :
  arrival_step df i = Ok df' ->
  exists prev a n,
    df !! (i - 1)%nat = Some prev /\ arrival_date prev = VDate a /\
    days_to_city prev = VInt n /\
    df' = alter (set_arrival_date (VDate (a + n))) i df.
Proof.
  unfold arrival_step. destruct (df !! (i - 1)%nat) as [prev|]; [|done].
  intros H. apply bind_Ok in H as (n & Hn & H). apply bind_Ok in H as (w & Hw & [= <-]).
  apply timedelta_Ok in Hn. apply date_add_Ok in Hw as (a & Ha & ->).
  by exists prev, a, n.
Qed.

Lemma fmap_alter_same {A B} (f : A -> B) (g : A -> A) (i : nat) (l : list A) :
  (forall x, f (g x) = f x) -> f <$> alter g i l = f <$> l.
Proof.
  intros Hfg. apply list_eq. intros j.
  rewrite !list_lookup_fmap.
  destruct (decide (i = j)) as [->|Hne].
  - rewrite list_lookup_alter_eq. destruct (l !! j); simpl; by rewrite ?Hfg.
  - by rewrite list_lookup_alter_ne.
Qed.

Lemma arrival_loop (m a : nat) df df' :
  (1 <= a)%nat -> ((0 < m)%nat -> (a + m <= length df)%nat) ->
  (forall k, (S k < a)%nat -> leg_dates_ok df k) ->
  for_each arrival_step df (seq a m) = Ok df' ->
  (forall k, (S k < a + m)%nat -> leg_dates_ok df' k) /\
  edit_columns <$> df' = edit_columns <$> df /\
  df' !! 0%nat = df !! 0%nat.
Proof.
  revert a df. induction m as [|m IH]; intros a df Ha Hlen Hold; simpl.
  - intros [= <-]. rewrite Nat.add_0_r. done.
  - intros H. apply bind_Ok in H as (df1 & Hstep & Hrest).
    apply arrival_step_Ok in Hstep as (prev & a0 & n & Hprev & Harr & Hdays & ->).
    assert (Hlt : (a < length df)%nat) by lia.
    destruct (lookup_lt_is_Some_2 df a Hlt) as [cur Hcur].
    apply IH in Hrest as (Hlegs & Hcols & Hzero).
    + split; [|split].
      * intros k Hk. apply Hlegs. lia.
      * rewrite Hcols. by apply fmap_alter_same.
      * rewrite Hzero. apply list_lookup_alter_ne. lia.
    + lia.
    + rewrite length_alter. lia.
    + intros k Hk. destruct (decide (S k = a)) as [<-|Hne].
      * exists prev, (set_arrival_date (VDate (a0 + n)) cur), a0, n.
        replace (S k - 1)%nat with k in Hprev by lia.
        rewrite list_lookup_alter_ne by lia.
        rewrite list_lookup_alter_eq, Hcur. done.
      * destruct (Hold k) as (s & s' & b & n' & ? & ? & ? & ? & ?); [lia|].
        exists s, s', b, n'. rewrite !list_lookup_alter_ne by lia. done.
Qed.

Lemma recompute_arrival_dates_Ok df df' :
  recompute_arrival_dates df = Ok df' ->
  (forall k, (S k < length df)%nat -> leg_dates_ok df' k) /\
  edit_columns <$> df' = edit_columns <$> df /\
  df' !! 0%nat = df !! 0%nat.
Proof.
  unfold recompute_arrival_dates. intros H.
  apply arrival_loop in H as (H1 & H2 & H3); [|lia|lia|intros; lia].
  split; [|done]. intros k Hk. apply H1. lia.
Qed.

(** *** The weather pass and the merge *)

Section Weather.
Variable Daily_fetch : string -> Z -> Z -> Z -> result (list daily_row).
Variable city_normals : gmap string city_normal.

Lemma weather_step_Ok w s w' :
  weather_step Daily_fetch city_normals w s = Ok w' ->
  exists o c win, arrival_date s = VDate o /\ stop_city s = VStr c /\
                  w' = <[c := win]> w.
Proof.
  unfold weather_step. destruct (arrival_date s) as [| | |o]; try done.
  intros H. apply bind_Ok in H as (p & _ & H). apply bind_Ok in H as (q & _ & H).
  destruct (stop_city s) as [| |c|]; try done.
  destruct (city_normals !! c) as [cn|]; [|done].
  apply bind_Ok in H as (w1 & _ & H). apply bind_Ok in H as (w2 & _ & H).
  apply bind_Ok in H as (w3 & _ & [= <-]). by eexists o, c, _.
Qed.

Lemma weather_loop_Ok l w0 w :
  for_each (weather_step Daily_fetch city_normals) w0 l = Ok w ->
  (forall c, is_Some (w0 !! c) -> is_Some (w !! c)) /\
  Forall (fun s => exists o c, arrival_date s = VDate o /\ stop_city s = VStr c /\
                               is_Some (w !! c)) l.
Proof.
  revert w0. induction l as [|s l IH]; intros w0; simpl.
  - intros [= <-]. done.
  - intros H. apply bind_Ok in H as (w1 & Hstep & Hrest).
    apply weather_step_Ok in Hstep as (o & c & win & Ho & Hc & ->).
    apply IH in Hrest as [Hmono Hall]. split.
    + intros c' Hc'. apply Hmono.
      destruct (decide (c = c')) as [->|Hne];
        [rewrite lookup_insert_eq; eauto|by rewrite lookup_insert_ne].
    + constructor; [|done]. exists o, c. repeat split; [done..|].
      apply Hmono. rewrite lookup_insert_eq. eauto.
Qed.
End Weather.

Lemma merge_weather_base df (w : gmap string weather_window) :
  Forall (fun s => exists c, stop_city s = VStr c /\ is_Some (w !! c)) df ->
  base <$> merge_weather df w = df.
Proof.
  induction 1 as [|s df (c & Hc & [win Hwin]) _ IH]; [done|].
  unfold merge_weather. simpl. rewrite Hc, Hwin. simpl. f_equal. exact IH.
Qed.

Lemma update_route_table_Ok dist fetch normals d c t edits r :
  update_route_table dist fetch normals d c t (Some edits) = Ok (Some r) ->
  exists route df df' w,
    get_route dist d c t = Ok route /\
    for_each apply_change (iloc_keep (deleted_rows edits) route) (edited_cells edits) = Ok df /\
    recompute_arrival_dates df = Ok df' /\
    for_each (weather_step fetch normals) ∅ df' = Ok w /\
    r = merge_weather df' w /\ base <$> r = df'.
Proof.
  unfold update_route_table. intros H.
  apply bind_Ok in H as (route & Hroute & H). apply bind_Ok in H as (df & Hdf & H).
  apply bind_Ok in H as (df' & Hdf' & H). apply bind_Ok in H as (w & Hw & [= <-]).
  exists route, df, df', w. repeat split; try done.
  apply merge_weather_base. apply weather_loop_Ok in Hw as [_ Hw].
  eapply Forall_impl; [exact Hw|]. intros s (o & c' & _ & ? & ?). eauto.
Qed.


Lemma raises_bind {A B} (m : result A) (f : A -> result B) :
  raises m -> raises (m ≫= f).
Proof. intros [e ->]. by exists e. Qed.

Lemma not_Ok_raises {A} (m : result A) : (forall a, m <> Ok a) -> raises m.
Proof. destruct m as [a|e]; intros H; [by destruct (H a)|by exists e]. Qed.


Lemma apply_change_out_of_range route_df change new_val row col :
  key_fields change = Ok (row, col) ->
  row < - Z.of_nat (length route_df) \/ Z.of_nat (length route_df) <= row \/
  col - 1 < - 4 \/ 4 <= col - 1 ->
  apply_change route_df (change, new_val) = Raise IndexError.
Proof.
  intros Hkey Hout. unfold apply_change. rewrite Hkey. simpl. unfold iloc_set.
  destruct (axis_pos (length route_df) row) as [i|e] eqn:Hrow; simpl.
  - rewrite (axis_pos_out 4 (col - 1)); [done|].
    destruct Hout as [H|[H|H]]; [| |simpl; lia].
    + rewrite axis_pos_out in Hrow by lia. done.
    + rewrite axis_pos_out in Hrow by lia. done.
  - unfold axis_pos in Hrow. repeat destruct (_ && _) in Hrow; congruence.
Qed.

Lemma apply_changes_raise entries route_df entry :
  entry ∈ entries ->
  (forall df, length df = length route_df -> raises (apply_change df entry)) ->
  raises (for_each apply_change route_df entries).
Proof.
  intros Hin Hbad. revert route_df Hbad.
  induction entries as [|e entries IH]; intros df Hbad; [by apply elem_of_nil in Hin|].
  simpl. destruct (apply_change df e) as [df1|err] eqn:Hstep; [|by exists err].
  simpl. apply elem_of_cons in Hin as [->|Hin].
  - destruct (Hbad df eq_refl) as [err Herr]. congruence.
  - apply IH; [done|]. intros df2 Hlen. apply Hbad.
    apply apply_change_length in Hstep. congruence.
Qed.

(** C5, amended: an edited cell whose row is outside [-n .. n-1] (n the
    number of stops left after the deletions) or whose key column is
    outside [-3 .. 4] raises [IndexError] when it is applied, and
    [update_route_table] returns no table; a travel-days cell that holds
    no integer once all edits are applied, on a stop other than the last,
    makes the arrival-date pass raise, and [update_route_table] returns
    no table. *)
Theorem bad_edits_raise
    (dist : Q * Q -> list (Q * Q) -> result Q)
    (fetch : string -> Z -> Z -> Z -> result (list daily_row))
    (normals : gmap string city_normal)
    (d : Z) (c : string) (t : list city_row) (edits : table_edits)
    (route : list stop) :
  get_route dist d c t = Ok route ->
  let kept := iloc_keep (deleted_rows edits) route in
  (forall change new_val row col,
     (change, new_val) ∈ edited_cells edits ->
     key_fields change = Ok (row, col) ->
     row < - Z.of_nat (length kept) \/ Z.of_nat (length kept) <= row \/
     col - 1 < - 4 \/ 4 <= col - 1 ->
     (forall df, length df = length kept ->
        apply_change df (change, new_val) = Raise IndexError) /\
     raises (update_route_table dist fetch normals d c t (Some edits))) /\
  (forall edited (k : nat) s,
     for_each apply_change kept (edited_cells edits) = Ok edited ->
     edited !! k = Some s -> (S k < length edited)%nat ->
     (forall n, days_to_city s <> VInt n) ->
     raises (recompute_arrival_dates edited) /\
     raises (update_route_table dist fetch normals d c t (Some edits))).
Proof.
  intros Hroute kept. split.
  - intros change new_val row col Hin Hkey Hout.
    assert (Hstep : forall df, length df = length kept ->
              apply_change df (change, new_val) = Raise IndexError).
    { intros df Hlen. eapply apply_change_out_of_range; [done|]. by rewrite Hlen. }
    split; [done|].
    unfold update_route_table. rewrite Hroute. simpl. fold kept.
    apply raises_bind. eapply apply_changes_raise; [done|].
    intros df Hlen. exists IndexError. by apply Hstep.
  - intros edited k s Hedited Hs Hk Hdays.
    assert (Hpass : raises (recompute_arrival_dates edited)).
    { apply not_Ok_raises. intros df' Hdf'.
      apply recompute_arrival_dates_Ok in Hdf' as (Hlegs & Hcols & _).
      destruct (Hlegs k Hk) as (x & _ & _ & n & Hx & _ & _ & Hn & _).
      apply (Hdays n).
      assert (edit_columns <$> edited !! k = edit_columns <$> df' !! k) as Heq
        by (by rewrite <- !list_lookup_fmap, Hcols).
      rewrite Hs, Hx in Heq. simpl in Heq. unfold edit_columns in Heq.
      injection Heq as _ _ ->. done. }
    split; [done|].
    unfold update_route_table. rewrite Hroute. simpl. fold kept. rewrite Hedited. simpl.
    by apply raises_bind.
Qed.

(** C10: without edit state in the session, [update_route_table] builds
    the base route and then returns [None]: no deletion, edit,
    arrival-date or weather pass is run, and an exception can only come
    from [get_route]. *)
Theorem update_route_table_without_edit_state
    (dist : Q * Q -> list (Q * Q) -> result Q)
    (fetch : string -> Z -> Z -> Z -> result (list daily_row))
    (normals : gmap string city_normal)
    (d : Z) (c : string) (t : list city_row) :
  update_route_table dist fetch normals d c t None =
  match get_route dist d c t with
  | Ok _ => Ok None
  | Raise e => Raise e
  end.
Proof. unfold update_route_table. by destruct (get_route dist d c t). Qed.


(** *** Strings *)

Lemma app_cons_string c s t : String c s +:+ t = String c (s +:+ t).
Proof. reflexivity. Qed.

Lemma app_nil_l_string t : "" +:+ t = t.
Proof. reflexivity. Qed.

Lemma app_nil_r_string s : s +:+ "" = s.
Proof. induction s as [|c s IH]; [done|]. by rewrite app_cons_string, IH. Qed.

Lemma app_assoc_string a b c : (a +:+ b) +:+ c = a +:+ (b +:+ c).
Proof. induction a as [|x a IH]; [done|]. by rewrite !app_cons_string, IH. Qed.

Lemma string_forallb_app p a b :
  string_forallb p (a +:+ b) = string_forallb p a && string_forallb p b.
Proof.
  induction a as [|c a IH]; [done|].
  rewrite app_cons_string. simpl. by rewrite IH, andb_assoc.
Qed.

Lemma string_forallb_impl (p q : ascii -> bool) s :
  (forall c, p c = true -> q c = true) ->
  string_forallb p s = true -> string_forallb q s = true.
Proof.
  intros Hpq. induction s as [|c s IH]; simpl; [done|].
  intros H. apply andb_prop in H as [H1 H2]. by rewrite (Hpq c H1), IH.
Qed.

Lemma prefix_app sep b : String.prefix sep (sep +:+ b) = true.
Proof.
  induction sep as [|c sep IH]; [by destruct b|].
  rewrite app_cons_string. simpl. destruct (ascii_dec c c); [done|congruence].
Qed.

Lemma prefix_first_differs c0 sep c s :
  c <> c0 -> String.prefix (String c0 sep) (String c s) = false.
Proof. intros H. simpl. destruct (ascii_dec c0 c); [congruence|done]. Qed.

Lemma split_go_skip sep x b cur :
  split_go sep (x +:+ b) (String.length x) cur = split_go sep b 0 cur.
Proof.
  induction x as [|c x IH]; [done|].
  rewrite app_cons_string. simpl. apply IH.
Qed.

Lemma eqb_neq_false (x c : ascii) : negb (Ascii.eqb x c) = true -> x <> c.
Proof. intros H ->. by rewrite Ascii.eqb_refl in H. Qed.

(** The first piece of a split: the separator's first character does not
    occur before the first separator. *)
Lemma split_go_first c0 sep a b cur :
  free_of c0 a = true ->
  split_go (String c0 sep) (a +:+ String c0 sep +:+ b) 0 cur =
  (cur +:+ a) :: split_go (String c0 sep) b 0 "".
Proof.
  revert cur. induction a as [|c a IH]; intros cur Hfree.
  - rewrite app_nil_r_string.
    change ("" +:+ String c0 sep +:+ b) with (String c0 (sep +:+ b)).
    cbn [split_go].
    change (String c0 (sep +:+ b)) with (String c0 sep +:+ b).
    rewrite prefix_app. f_equal. cbn [String.length pred].
    apply split_go_skip.
  - simpl in Hfree. apply andb_prop in Hfree as [Hc Hfree].
    apply eqb_neq_false in Hc.
    change (String c a +:+ String c0 sep +:+ b)
      with (String c (a +:+ String c0 sep +:+ b)).
    cbn [split_go]. rewrite prefix_first_differs by done.
    rewrite IH by done. f_equal.
    rewrite app_assoc_string. done.
Qed.

(** No separator at all: one piece. *)
Lemma split_go_none c0 sep y cur :
  free_of c0 y = true ->
  split_go (String c0 sep) y 0 cur = [cur +:+ y].
Proof.
  revert cur. induction y as [|c y IH]; intros cur Hfree.
  - simpl. by rewrite app_nil_r_string.
  - simpl in Hfree. apply andb_prop in Hfree as [Hc Hfree].
    apply eqb_neq_false in Hc.
    cbn [split_go]. rewrite prefix_first_differs by done.
    rewrite IH by done. by rewrite app_assoc_string.
Qed.

(** The separator's first character at the very end only, and a
    separator of two characters or more: one piece. *)
Lemma split_go_trailing c0 c1 sep w cur :
  free_of c0 w = true ->
  split_go (String c0 (String c1 sep)) (w +:+ String c0 "") 0 cur = [cur +:+ w +:+ String c0 ""].
Proof.
  revert cur. induction w as [|c w IH]; intros cur Hfree.
  - simpl. destruct (ascii_dec c0 c0); done.
  - simpl in Hfree. apply andb_prop in Hfree as [Hc Hfree].
    apply eqb_neq_false in Hc.
    change (String c w +:+ String c0 "") with (String c (w +:+ String c0 "")).
    cbn [split_go]. rewrite prefix_first_differs by done.
    rewrite IH by done. by rewrite app_assoc_string.
Qed.

Lemma middle_text_window pre on post :
  free_of ")" pre = true ->
  free_of ")" on = true -> free_of " " on = true ->
  free_of ")" post = true ->
  middle_text ("(" +:+ pre +:+ ") " +:+ on +:+ " (" +:+ post +:+ ")") = Ok on.
Proof.
  intros Hpre Hon1 Hon2 Hpost.
  assert (H1 : py_split ") " ("(" +:+ pre +:+ ") " +:+ on +:+ " (" +:+ post +:+ ")")
               = ["(" +:+ pre; on +:+ " (" +:+ post +:+ ")"]).
  { unfold py_split.
    replace ("(" +:+ pre +:+ ") " +:+ on +:+ " (" +:+ post +:+ ")")
      with (("(" +:+ pre) +:+ ") " +:+ ((on +:+ " (" +:+ post) +:+ ")"))
      by (by rewrite !app_assoc_string).
    rewrite split_go_first by (simpl; exact Hpre).
    rewrite split_go_trailing.
    - by rewrite !app_nil_l_string, !app_assoc_string.
    - unfold free_of in *. rewrite !string_forallb_app, Hon1, Hpost. done. }
  assert (H2 : py_split " (" (on +:+ " (" +:+ post +:+ ")")
               = on :: split_go " (" (post +:+ ")") 0 "").
  { unfold py_split. by rewrite split_go_first. }
  unfold middle_text. rewrite H1.
  change (py_index ["(" +:+ pre; on +:+ " (" +:+ post +:+ ")"] (-1))
    with (Ok (on +:+ " (" +:+ post +:+ ")")).
  simpl. rewrite H2. done.
Qed.

(** *** Decimal text *)

Lemma string_of_uint_digits u :
  string_forallb is_digit_char (NilEmpty.string_of_uint u) = true.
Proof. induction u; simpl; done. Qed.

Lemma py_str_int_nonneg n :
  0 <= n ->
  string_forallb is_digit_char (py_str_int n) = true /\
  py_str_int n <> "" /\
  digits_value (py_str_int n) = Some n.
Proof.
  intros Hn. destruct n as [|p|p]; [done| |lia].
  unfold py_str_int, digits_value. simpl.
  pose proof (DecimalPos.Unsigned.to_uint_nonnil p) as Hnil.
  assert (Hs : NilZero.string_of_uint (Pos.to_uint p) = NilEmpty.string_of_uint (Pos.to_uint p)).
  { destruct (Pos.to_uint p); done. }
  split; [rewrite Hs; apply string_of_uint_digits|]. split.
  - rewrite Hs. destruct (Pos.to_uint p); done.
  - rewrite NilZero.usu by done. simpl. unfold Z.of_uint.
    by rewrite DecimalPos.Unsigned.of_to.
Qed.

Lemma digit_free c s :
  is_digit_char c = false ->
  string_forallb is_digit_char s = true -> free_of c s = true.
Proof.
  intros Hc. apply string_forallb_impl. intros x Hx.
  destruct (Ascii.eqb x c) eqn:E; [|done].
  apply Ascii.eqb_eq in E. congruence.
Qed.

Lemma repr_reading_chars r : string_forallb float_char (repr_reading r) = true.
Proof.
  destruct r as [|t]; [done|]. unfold repr_reading.
  destruct (py_str_int_nonneg (Z.abs t / 10)) as (H1 & _ & _);
    [apply Z.div_pos; lia|].
  destruct (py_str_int_nonneg (Z.abs t mod 10)) as (H2 & _ & _);
    [apply Z.mod_pos_bound; lia|].
  assert (Hd : forall s, string_forallb is_digit_char s = true ->
                         string_forallb float_char s = true).
  { intros s. apply string_forallb_impl. intros c Hc. unfold float_char. by rewrite Hc. }
  rewrite !string_forallb_app, (Hd _ H1), (Hd _ H2).
  by destruct (t <? 0).
Qed.

Lemma repr_reading_free c r :
  float_char c = false -> free_of c (repr_reading r) = true.
Proof.
  intros Hc. generalize (repr_reading_chars r). apply string_forallb_impl.
  intros x Hx. destruct (Ascii.eqb x c) eqn:E; [|done].
  apply Ascii.eqb_eq in E. congruence.
Qed.

Lemma lstrip_id s : string_forallb float_char s = true -> lstrip s = s.
Proof.
  destruct s as [|c s]; [done|]. simpl. intros H. apply andb_prop in H as [H _].
  destruct (Ascii.is_space c) eqn:E; [|done].
  exfalso. revert H E. unfold float_char, is_digit_char, is_digit, Ascii.is_space.
  destruct c as [[] [] [] [] [] [] [] []]; vm_compute; congruence.
Qed.

Lemma rstrip_id s : string_forallb float_char s = true -> rstrip s = s.
Proof.
  induction s as [|c s IH]; [done|]. simpl. intros H. apply andb_prop in H as [H1 H2].
  rewrite (IH H2). destruct s; [|done].
  destruct (Ascii.is_space c) eqn:E; [|done].
  exfalso. revert H1 E. unfold float_char, is_digit_char, is_digit, Ascii.is_space.
  destruct c as [[] [] [] [] [] [] [] []]; vm_compute; congruence.
Qed.

Lemma single_digit m :
  0 <= m < 10 -> exists c, py_str_int m = String c "" /\ is_digit_char c = true.
Proof.
  intros H.
  assert (m = 0 \/ m = 1 \/ m = 2 \/ m = 3 \/ m = 4 \/ m = 5 \/ m = 6 \/ m = 7 \/ m = 8 \/ m = 9)
    as Hm by lia.
  repeat (destruct Hm as [->|Hm]; [eexists; split; reflexivity|]).
  subst. eexists; split; reflexivity.
Qed.

Lemma float_body_decimal neg (m : Z) :
  0 <= m ->
  float_body neg (py_str_int (m / 10) +:+ "." +:+ py_str_int (m mod 10))
  = Ok (FNum (Qmake (if neg then - m else m) 10)).
Proof.
  intros Hm.
  destruct (py_str_int_nonneg (m / 10)) as (Hi1 & Hi2 & Hi3);
    [apply Z.div_pos; lia|].
  destruct (single_digit (m mod 10)) as (cf & Hf & Hcf);
    [apply Z.mod_pos_bound; lia|].
  destruct (py_str_int_nonneg (m mod 10)) as (_ & _ & Hf3);
    [apply Z.mod_pos_bound; lia|].
  set (I := py_str_int (m / 10)) in *.
  rewrite Hf in *. unfold float_body.
  assert (Hnan : String.eqb (I +:+ "." +:+ String cf "") "nan" = false).
  { destruct I as [|c I']; [done|]. rewrite app_cons_string.
    simpl in Hi1. apply andb_prop in Hi1 as [Hc _].
    simpl. destruct (Ascii.eqb c "n") eqn:E; [|done].
    apply Ascii.eqb_eq in E. subst c. done. }
  rewrite Hnan.
  assert (Hsplit : py_split "." (I +:+ "." +:+ String cf "") = [I; String cf ""]).
  { unfold py_split. rewrite split_go_first by (by apply digit_free).
    rewrite split_go_none; [done|].
    apply digit_free; [done|]. simpl. by rewrite Hcf. }
  rewrite Hsplit.
  assert (HI : String.eqb I "" = false) by (by apply String.eqb_neq).
  rewrite HI, Hi3, Hf3. simpl.
  do 3 f_equal. change (Z.pos (10 ^ Pos.of_nat 1)) with 10.
  pose proof (Z.div_mod m 10) as Hdm.
  destruct neg; lia.
Qed.

Lemma py_float_repr_reading r : py_float (repr_reading r) = Ok (reading_value r).
Proof.
  destruct r as [|t]; [done|].
  assert (Hstrip : strip (repr_reading (Tenths t)) = repr_reading (Tenths t)).
  { unfold strip. rewrite lstrip_id, rstrip_id; [done|apply repr_reading_chars..]. }
  unfold py_float. rewrite Hstrip. unfold repr_reading.
  destruct (t <? 0) eqn:Hneg.
  - rewrite app_cons_string, app_nil_l_string.
    change (split_sign (String "-" (py_str_int (Z.abs t / 10) +:+ "." +:+ py_str_int (Z.abs t mod 10))))
      with (true, py_str_int (Z.abs t / 10) +:+ "." +:+ py_str_int (Z.abs t mod 10)).
    lazy beta iota. rewrite float_body_decimal by lia. simpl. do 3 f_equal.
    apply Z.ltb_lt in Hneg. lia.
  - rewrite app_nil_l_string.
    destruct (py_str_int_nonneg (Z.abs t / 10)) as (Hi1 & Hi2 & _);
      [apply Z.div_pos; lia|].
    assert (Hsign : forall s rest, string_forallb is_digit_char s = true -> s <> "" ->
              split_sign (s +:+ rest) = (false, s +:+ rest)).
    { intros s rest Hs Hne. destruct s as [|c s]; [done|].
      rewrite app_cons_string. simpl in Hs. apply andb_prop in Hs as [Hc _].
      revert Hc. unfold split_sign, is_digit_char, is_digit.
      destruct c as [[] [] [] [] [] [] [] []]; vm_compute; congruence. }
    rewrite Hsign by done.
    lazy beta iota. rewrite float_body_decimal by lia. simpl. do 3 f_equal.
    apply Z.ltb_ge in Hneg. lia.
Qed.


(** *** The demo world *)

Lemma demo_table_names : NoDup (city <$> demo_table).
Proof. by_evaluation. Defined.

Lemma demo_dist_total a b :
  a ∈ demo_table -> b ∈ demo_table -> a <> b ->
  exists q, demo_dist (coords b) [coords a] = Ok q.
Proof. intros _ _ _. eexists. reflexivity. Defined.

Lemma demo_start_valid : valid_ordinal demo_start.
Proof. unfold valid_ordinal, demo_start, _MAXORDINAL. lia. Defined.

Lemma demo_route_built : get_route demo_dist demo_start "A" demo_table = Ok demo_route.
Proof. vm_compute. reflexivity. Defined.

Lemma get_route_visits_each_city_once_witness :
  exists route,
    get_route demo_dist demo_start "A" demo_table = Ok route /\
    stop_city <$> route ≡ₚ (fun r => VStr (city r)) <$> demo_table /\
    NoDup (stop_city <$> route) /\
    stop_city <$> head route = Some (VStr "A") /\
    length route = length demo_table /\
    (length demo_table = 1%nat ->
     route = [ {| stop_city := VStr "A"; est_dist := VInt 0;
                  days_to_city := VInt 0; arrival_date := VDate demo_start |} ]).
Proof.
  apply get_route_visits_each_city_once.
  - exact demo_table_names.
  - by_evaluation.
  - exact demo_start_valid.
  - exact demo_dist_total.
Defined.





(** C5, as stated, fails: a string in the travel-days cell of the last
    stop is accepted and a finalized table is returned. *)
Lemma non_integer_travel_days_on_last_stop_accepted :
  key_fields "2:3" = Ok (2, 3) /\
  exists r s,
    update_route_table demo_dist demo_fetch demo_normals demo_start "A" demo_table
      (Some {| deleted_rows := []; edited_cells := [("2:3", JStr "abc")] |}) = Ok (Some r) /\
    r !! 2%nat = Some s /\ days_to_city (base s) = VStr "abc" /\
    ~ raises (update_route_table demo_dist demo_fetch demo_normals demo_start "A" demo_table
                (Some {| deleted_rows := []; edited_cells := [("2:3", JStr "abc")] |})).
Proof.
  split; [vm_compute; reflexivity|].
  eexists _, _. split; [vm_compute; reflexivity|].
  split; [reflexivity|]. split; [reflexivity|].
  intros [e He]. vm_compute in He. discriminate He.
Qed.

Lemma bad_edits_raise_witness :
  raises (update_route_table demo_dist demo_fetch demo_normals demo_start "A" demo_table
            (Some {| deleted_rows := [1]; edited_cells := [("2:3", JInt 1)] |})) /\
  raises (update_route_table demo_dist demo_fetch demo_normals demo_start "A" demo_table
            (Some {| deleted_rows := []; edited_cells := [("0:3", JStr "two")] |})).
Proof.
  split.
  - pose proof (bad_edits_raise demo_dist demo_fetch demo_normals demo_start "A" demo_table
                  {| deleted_rows := [1]; edited_cells := [("2:3", JInt 1)] |}
                  demo_route demo_route_built) as [Hrange _].
    apply (Hrange "2:3" (JInt 1) 2 3).
    + simpl. by left.
    + vm_compute. reflexivity.
    + right. left. vm_compute. discriminate.
  - pose proof (bad_edits_raise demo_dist demo_fetch demo_normals demo_start "A" demo_table
                  {| deleted_rows := []; edited_cells := [("0:3", JStr "two")] |}
                  demo_route demo_route_built) as [_ Hdays].
    apply (Hdays (alter (set_column 2 (VStr "two")) 0%nat demo_route) 0%nat
                 {| stop_city := VStr "A"; est_dist := VStr "111 km";
                    days_to_city := VStr "two"; arrival_date := VDate 738521 |}).
    + vm_compute. reflexivity.
    + reflexivity.
    + simpl. lia.
    + intros n. simpl. discriminate.
Defined.



(** *** Historical dailies *)

Lemma apply_rows_ext {A B} (f g : A -> result B) l :
  Forall (fun a => f a = g a) l -> apply_rows f l = apply_rows g l.
Proof.
  induction 1 as [|a l Ha _ IH]; simpl; [done|]. by rewrite Ha, IH.
Qed.

(** C7 (the code departs from it): the years aggregated by
    [get_historical_dailies] are 1991 to 2019.  The year 2020 is never
    requested: whatever the archive holds for 2020, even an exception,
    the result is the same; and for a station with one row for every year
    asked, 2020 included, the query of 15 June counts 29 years, the last
    of them 2019. *)
Theorem year_2020_is_not_queried :
  queried_years = py_range 1991 2020 /\
  length queried_years = 29%nat /\
  (2020 ∉ queried_years) /\
  Forall (fun y => 1991 <= y <= 2019) queried_years /\
  (forall fetch station_id day month,
     get_historical_dailies fetch station_id day month =
     get_historical_dailies
       (fun st y m d => if y =? 2020 then Raise KeyError else fetch st y m d)
       station_id day month) /\
  exists avgs,
    get_historical_dailies demo_fetch "sa" 15 6 = Ok avgs /\
    available_years avgs = 29%nat /\
    min_year_available avgs = Some 1991 /\
    max_year_available avgs = Some 2019.
Proof.
  split; [reflexivity|]. split; [reflexivity|].
  split; [by_evaluation|].
  split; [by_evaluation|].
  split.
  - intros fetch station_id day month. unfold get_historical_dailies.
    rewrite (apply_rows_ext _
      (fun year => _ ← check_date_fields year month day;
         (if year =? 2020 then Raise KeyError else fetch station_id year month day))
      queried_years); [done|].
    vm_compute queried_years. repeat (constructor; [reflexivity|]). constructor.
  - eexists. split; [vm_compute; reflexivity|]. repeat split.
Qed.

(** *** Catalog maintenance *)

(** C9, as stated, fails: removing Leon in Mexico drops the one cache
    entry named ["Leon"], and the row of Leon in Nicaragua, which stays
    in the table, is left without its cache entry. *)
Lemma remove_city_breaks_same_named_city :
  consistent leon_table leon_normals /\
  exists cities' table' normals',
    remove_city leon_catalog leon_table leon_normals "Mexico" "Leon"
      = Ok (cities', table', normals') /\
    leon_ni ∈ table' /\ normals' !! city leon_ni = None /\
    ~ consistent table' normals'.
Proof.
  split.
  - split.
    + intros r Hr. exists (demo_normal "s1").
      repeat (apply elem_of_cons in Hr as [->|Hr]; [reflexivity|]).
      by apply elem_of_nil in Hr.
    + intros c cn Hc. left. unfold leon_normals in Hc.
      apply lookup_singleton_Some in Hc as [<- _].
      exists leon_mx. split; [by left|reflexivity].
  - eexists _, [leon_ni], (delete "Leon" leon_normals).
    split; [reflexivity|]. split; [by left|]. split; [reflexivity|].
    intros [H _]. destruct (H leon_ni) as [cn Hcn]; [by left|].
    vm_compute in Hcn. discriminate Hcn.
Qed.

(** C9, amended: when no row of another country carries the name of the
    city removed, [remove_city] takes the first occurrence of the city out
    of its country's catalog list, removes the cache entry of that name and
    the table rows of that (country, city) pair, changes nothing else in
    table and cache, and leaves table and cache consistent. *)
Theorem remove_city_keeps_consistency
    (cities : gmap string (list string)) (panam_cities : list city_row)
    (city_normals : gmap string city_normal) (old_country old_city : string)
    (l : list string) :
  consistent panam_cities city_normals ->
  cities !! old_country = Some l -> old_city ∈ l ->
  (forall r, r ∈ panam_cities -> city r = old_city -> country r = old_country) ->
  exists table' normals',
    remove_city cities panam_cities city_normals old_country old_city
      = Ok (<[old_country := list_remove_first old_city l]> cities, table', normals') /\
    normals' !! old_city = None /\
    (forall c, c <> old_city -> normals' !! c = city_normals !! c) /\
    (forall r, r ∈ table' <->
               r ∈ panam_cities /\ ~ (city r = old_city /\ country r = old_country)) /\
    consistent table' normals'.
Proof.
  intros [Hrows Hkeys] Hcat Hin Hunique.
  exists (filter (fun r => ~ (city r = old_city /\ country r = old_country)) panam_cities),
         (delete old_city city_normals).
  assert (Hmem : forall r,
            r ∈ filter (fun r => ~ (city r = old_city /\ country r = old_country)) panam_cities
            <-> r ∈ panam_cities /\ ~ (city r = old_city /\ country r = old_country)).
  { intros r. rewrite list_elem_of_filter. tauto. }
  split.
  { unfold remove_city, remove_info_old_city. rewrite Hcat.
    rewrite decide_True by done.
    destruct (decide (old_city ∈ dom city_normals)) as [Hd|Hd]; [done|].
    do 3 f_equal. symmetry. apply delete_id. by apply not_elem_of_dom. }
  split; [apply lookup_delete_eq|].
  split; [intros c Hc; by apply lookup_delete_ne|].
  split; [exact Hmem|].
  split.
  - intros r Hr. apply Hmem in Hr as [Hr Hne].
    rewrite lookup_delete_ne; [by apply Hrows|].
    intros Heq. apply Hne. split; [done|]. by apply Hunique.
  - intros c cn Hc. apply lookup_delete_Some in Hc as [Hne Hc].
    destruct (Hkeys c cn Hc) as [(r & Hr & Hrc)|Hex]; [|by right].
    left. exists r. split; [|done]. apply Hmem. split; [done|].
    intros [Heq _]. congruence.
Qed.

Lemma demo_consistent : consistent demo_table demo_normals.
Proof.
  split.
  - intros r Hr.
    repeat (apply elem_of_cons in Hr as [->|Hr]; [eexists; vm_compute; reflexivity|]).
    by apply elem_of_nil in Hr.
  - intros c cn Hc. left. unfold demo_normals in Hc.
    apply lookup_insert_Some in Hc as [[<- _]|[_ Hc]];
      [exists city_A; split; [set_solver|reflexivity]|].
    apply lookup_insert_Some in Hc as [[<- _]|[_ Hc]];
      [exists city_B; split; [set_solver|reflexivity]|].
    apply lookup_insert_Some in Hc as [[<- _]|[_ Hc]];
      [exists city_C; split; [set_solver|reflexivity]|].
    by rewrite lookup_empty in Hc.
Defined.

Lemma remove_city_keeps_consistency_witness :
  exists table' normals',
    remove_city demo_catalog demo_table demo_normals "X" "B"
      = Ok (<["X" := list_remove_first "B" ["A"; "B"]]> demo_catalog, table', normals') /\
    normals' !! "B" = None /\
    (forall c, c <> "B" -> normals' !! c = demo_normals !! c) /\
    (forall r, r ∈ table' <->
               r ∈ demo_table /\ ~ (city r = "B" /\ country r = "X")) /\
    consistent table' normals'.
Proof.
  apply remove_city_keeps_consistency.
  - exact demo_consistent.
  - vm_compute. reflexivity.
  - by_evaluation.
  - intros r Hr.
    repeat (apply elem_of_cons in Hr as [->|Hr]; [vm_compute; congruence|]).
    by apply elem_of_nil in Hr.
Defined.

(** ** Further properties of the code *)

Lemma for_each_seq_inv {S} (P : nat -> S -> Prop) (body : S -> nat -> result S) :
  (forall i s s', P i s -> body s i = Ok s' -> P (Datatypes.S i) s') ->
  forall (m a : nat) s s', P a s -> for_each body s (seq a m) = Ok s' -> P (a + m)%nat s'.
Proof.
  intros Hbody. induction m as [|m IH]; intros a s s' Hs; simpl.
  - intros [= <-]. by rewrite Nat.add_0_r.
  - intros H. apply bind_Ok in H as (s1 & H1 & H2).
    replace (a + Datatypes.S m)%nat with (Datatypes.S a + m)%nat by lia. eauto.
Qed.

Lemma apply_rows_Ok_length {A B} (f : A -> result B) l bs :
  apply_rows f l = Ok bs -> length bs = length l.
Proof.
  revert bs. induction l as [|a l IH]; intros bs; simpl.
  - by intros [= <-].
  - intros H. apply bind_Ok in H as (b & _ & H). apply bind_Ok in H as (bs' & Hbs & [= <-]).
    simpl. f_equal. by apply IH.
Qed.

(** What a successful iteration of [get_route] does to the state. *)
Lemma route_step_Ok dist nc cur rd (i : nat) st' :
  route_step dist (nc, cur, rd) i = Ok st' ->
  exists r q prev arrival nc2,
    nc2 ≡ₚ filter (fun x => city x <> cur) nc /\ r ∈ nc2 /\
    rd !! i = Some prev /\
    st' = (nc2, city r,
           alter (set_est_dist (VStr (py_str_int (py_round q) +:+ " km"))) i
                 (rd ++ [ {| stop_city := VStr (city r); est_dist := VInt 0;
                             days_to_city := VInt 0; arrival_date := arrival |} ])).
Proof.
  unfold route_step. intros H. apply bind_Ok in H as (dists & Hd & H).
  destruct (sort_values _) as [|[r q] rest] eqn:Hs; [done|].
  destruct (rd !! i) as [prev|] eqn:Hprev; [|done].
  apply bind_Ok in H as (n & _ & H). apply bind_Ok in H as (arrival & _ & [= <-]).
  exists r, q, prev, arrival, (((r, q) :: rest).*1).
  split; [|split; [by left|done]].
  rewrite <- Hs, sort_values_perm. rewrite fst_zip; [done|].
  apply apply_rows_Ok_length in Hd. lia.
Qed.

Lemma fmap_filter_cons_submseteq {A B} `{EqDecision B} (f : A -> B) (l : list A) (x : B) :
  x ∈ f <$> l -> x :: (f <$> filter (fun a => f a <> x) l) ⊆+ f <$> l.
Proof.
  induction l as [|y l IH]; intros Hx; [by apply elem_of_nil in Hx|].
  rewrite fmap_cons in Hx. rewrite fmap_cons.
  destruct (decide (f y = x)) as [Heq|Hne].
  - rewrite filter_cons_False by (intros H; by apply H). rewrite Heq.
    apply submseteq_skip. apply sublist_submseteq, fmap_sublist, sublist_filter.
  - rewrite filter_cons_True by done. rewrite fmap_cons.
    apply elem_of_cons in Hx as [Hx|Hx]; [congruence|].
    etrans; [apply Permutation_submseteq, perm_swap|].
    apply submseteq_skip. by apply IH.
Qed.

Lemma route_step_visit dist table (i : nat) st st' :
  visit_inv table i st -> route_step dist st i = Ok st' -> visit_inv table (S i) st'.
Proof.
  destruct st as [[nc cur] rd].
  intros (vis & Hlen & Hrd & Hnd & Hcur & Hdisj & Hsub) Hstep. simpl in *.
  apply route_step_Ok in Hstep as (r & q & prev & arrival & nc2 & Hperm & Hr & Hprev & ->).
  exists (vis ++ [cur]). simpl.
  assert (Hnames : city <$> nc2 ≡ₚ city <$> filter (fun x => city x <> cur) nc)
    by (by rewrite Hperm).
  split; [rewrite length_app; simpl; lia|].
  split.
  { rewrite fmap_alter_same by done. rewrite fmap_app, Hrd. simpl.
    by rewrite !fmap_app. }
  split.
  { apply NoDup_app. split; [done|]. split; [|apply NoDup_singleton].
    intros x Hx Hx2. apply list_elem_of_singleton in Hx2 as ->. by apply (Hdisj cur). }
  split; [by apply list_elem_of_fmap_2|].
  split.
  { intros x Hx. rewrite Hnames. intros Hin.
    apply list_elem_of_fmap in Hin as (y & -> & Hy).
    apply list_elem_of_filter in Hy as [Hne Hy].
    apply elem_of_app in Hx as [Hx|Hx].
    - apply (Hdisj _ Hx). by apply list_elem_of_fmap_2.
    - apply list_elem_of_singleton in Hx. congruence. }
  rewrite Hnames. etrans; [|exact Hsub].
  rewrite <- (assoc_L (++)). apply submseteq_app; [done|]. simpl.
  by apply fmap_filter_cons_submseteq.
Qed.

(** X1: a route comes back for a start city of the table only when the
    city names of the table are distinct; its cities are then those of
    the table, each once. *)
Theorem get_route_returns_only_for_distinct_names
    (dist : Q * Q -> list (Q * Q) -> result Q) (d : Z) (start : string)
    (table : list city_row) (route : list stop) :
  start ∈ city <$> table ->
  get_route dist d start table = Ok route ->
  NoDup (city <$> table) /\
  stop_city <$> route ≡ₚ VStr <$> (city <$> table).
Proof.
  intros Hstart Hroute. unfold get_route in Hroute.
  apply bind_Ok in Hroute as (st & Hloop & [= <-]).
  assert (Hinv0 : visit_inv table 0
            (table, start, [ {| stop_city := VStr start; est_dist := VInt 0;
                                days_to_city := VInt 0; arrival_date := VDate d |} ])).
  { exists []. simpl. repeat split; try done; [apply NoDup_nil_2|by intros x Hx%elem_of_nil]. }
  pose proof (for_each_seq_inv (visit_inv table) (route_step dist)
                (route_step_visit dist table) _ _ _ _ Hinv0 Hloop) as Hfin.
  destruct st as [[nc cur] rd].
  destruct Hfin as (vis & Hlen & Hrd & Hnd & Hcur & Hdisj & Hsub). simpl in *.
  assert (Hpos : (0 < length table)%nat).
  { destruct table; [by apply elem_of_nil in Hstart|simpl; lia]. }
  assert (Hnc : (0 < length nc)%nat).
  { destruct nc; [by apply elem_of_nil in Hcur|simpl; lia]. }
  assert (Hperm : vis ++ (city <$> nc) ≡ₚ city <$> table).
  { apply submseteq_length_Permutation; [done|].
    rewrite length_app, !length_fmap. lia. }
  assert (Hone : city <$> nc = [cur]).
  { apply Permutation_length in Hperm. rewrite length_app, !length_fmap in Hperm.
    destruct nc as [|x [|y nc]]; simpl in *; try lia.
    apply list_elem_of_singleton in Hcur. by rewrite Hcur. }
  rewrite Hone in Hperm. split.
  - rewrite <- Hperm. apply NoDup_app. split; [done|]. split; [|apply NoDup_singleton].
    intros x Hx Hx2. apply (Hdisj x Hx). by rewrite Hone.
  - by rewrite Hrd, Hperm.
Qed.

Lemma route_step_shape dist (i : nat) st st' :
  shape_inv i st -> route_step dist st i = Ok st' -> shape_inv (S i) st'.
Proof.
  destruct st as [[nc cur] rd]. intros (Hlen & Hlast & Hprev) Hstep. simpl in *.
  apply route_step_Ok in Hstep as (r & q & prev & arrival & nc2 & _ & _ & Hp & ->).
  unfold shape_inv. cbn [snd].
  split; [rewrite length_alter, length_app; simpl; lia|]. split.
  - intros s. rewrite list_lookup_alter_ne by lia.
    rewrite lookup_app_r by lia. rewrite Hlen, Nat.sub_diag. by intros [= <-].
  - intros k s Hk. destruct (decide (k = i)) as [->|Hne].
    + rewrite list_lookup_alter_eq, lookup_app_l, Hp by lia.
      intros [= <-]. by exists q.
    + rewrite list_lookup_alter_ne by lia. rewrite lookup_app_l by lia.
      apply Hprev. lia.
Qed.

(** X2: whatever the table and the distance function, a route returned
    by [get_route] has one stop for a table of at most one row and as
    many stops as rows otherwise; every stop arrives on the start date
    with travel days [0]; the last stop keeps the placeholder distance
    [0], every other stop holds a distance text ending in [" km"]. *)
Theorem get_route_shape
    (dist : Q * Q -> list (Q * Q) -> result Q) (d : Z) (start : string)
    (table : list city_row) (route : list stop) :
  get_route dist d start table = Ok route ->
  length route = S (length table - 1) /\
  Forall (fun s => arrival_date s = VDate d /\ days_to_city s = VInt 0) route /\
  (forall s, last route = Some s -> est_dist s = VInt 0) /\
  (forall (k : nat) s, (S k < length route)%nat -> route !! k = Some s ->
     exists q, est_dist s = VStr (py_str_int (py_round q) +:+ " km")).
Proof.
  intros Hroute. pose proof (get_route_fresh _ _ _ _ _ Hroute) as Hfresh.
  unfold get_route in Hroute. apply bind_Ok in Hroute as (st & Hloop & [= <-]).
  assert (Hinv0 : shape_inv 0
            (table, start, [ {| stop_city := VStr start; est_dist := VInt 0;
                                days_to_city := VInt 0; arrival_date := VDate d |} ])).
  { split; [done|]. split; [by intros s [= <-]|]. intros k s Hk. lia. }
  pose proof (for_each_seq_inv shape_inv (route_step dist)
                (route_step_shape dist) _ _ _ _ Hinv0 Hloop) as (Hlen & Hlast & Hprev).
  simpl in Hlen, Hlast, Hprev.
  split; [done|]. split; [exact Hfresh|]. split.
  - intros s Hs. apply Hlast. rewrite last_lookup in Hs. by rewrite Hlen in Hs.
  - intros k s Hk. apply Hprev. lia.
Qed.

(** *** Historical dailies: when a query answers *)


Lemma apply_rows_Ok_Forall2 {A B} (f : A -> result B) l bs :
  apply_rows f l = Ok bs -> Forall2 (fun a b => f a = Ok b) l bs.
Proof.
  revert bs. induction l as [|a l IH]; intros bs; simpl.
  - intros [= <-]. constructor.
  - intros H. apply bind_Ok in H as (b & Hb & H).
    apply bind_Ok in H as (bs' & Hbs & [= <-]). constructor; auto.
Qed.


(** *** The weather pass, stop by stop *)

Section WeatherFacts.
Variable fetch : string -> Z -> Z -> Z -> result (list daily_row).
Variable normals : gmap string city_normal.

Lemma date_shift_Ok o k o' : date_shift o k = Ok o' -> o' = o + k.
Proof.
  unfold date_shift. destruct ((0 <? o + k) && (o + k <=? _MAXORDINAL)); by intros [= <-].
Qed.

Lemma weather_step_facts w s w' :
  weather_step fetch normals w s = Ok w' ->
  exists c win, w' = <[c := win]> w /\ made_window win /\ stop_answered fetch normals w' s.
Proof.
  unfold weather_step. destruct (arrival_date s) as [| | |o] eqn:Ho; try done.
  intros H. apply bind_Ok in H as (p & Hp & H). apply bind_Ok in H as (q & Hq & H).
  apply date_shift_Ok in Hp as ->. apply date_shift_Ok in Hq as ->.
  destruct (stop_city s) as [| |c|] eqn:Hc; try done.
  destruct (normals !! c) as [cn|] eqn:Hcn; [|done].
  apply bind_Ok in H as (w1 & H1 & H). apply bind_Ok in H as (w2 & H2 & H).
  apply bind_Ok in H as (w3 & H3 & [= <-]).
  exists c, (make_window w1 w2 w3). split; [done|]. split; [by exists w1, w2, w3|].
  exists o, c, cn. rewrite lookup_insert_eq.
  split; [done|]. split; [done|]. split; [done|]. split; [by eexists|].
  unfold answered. replace (o - 3) with (o + -3) by lia.
  split; [exists w1; exact H1|]. split; [exists w2; exact H2|exists w3; exact H3].
Qed.

Lemma weather_loop_facts l w0 w :
  for_each (weather_step fetch normals) w0 l = Ok w ->
  map_Forall (fun _ win => made_window win) w0 ->
  map_Forall (fun _ win => made_window win) w /\
  (forall c, is_Some (w0 !! c) -> is_Some (w !! c)) /\
  Forall (stop_answered fetch normals w) l.
Proof.
  revert w0. induction l as [|s l IH]; intros w0; simpl.
  - intros [= <-]. done.
  - intros H Hw0. apply bind_Ok in H as (w1 & Hstep & Hrest).
    apply weather_step_facts in Hstep as (c & win & -> & Hwin & Hs).
    apply IH in Hrest as (Hall & Hmono & Hl).
    2:{ by apply map_Forall_insert_2. }
    split; [done|]. split.
    + intros c' Hc'. apply Hmono.
      destruct (decide (c = c')) as [->|Hne];
        [rewrite lookup_insert_eq; eauto|by rewrite lookup_insert_ne].
    + constructor; [|done].
      destruct Hs as (o & c' & cn & Ho & Hc' & Hcn & Hsome & Hrest).
      exists o, c', cn. split; [exact Ho|]. split; [exact Hc'|]. split; [exact Hcn|].
      split; [by apply Hmono|exact Hrest].
Qed.
End WeatherFacts.

Lemma merge_weather_rows df (w : gmap string weather_window) row :
  row ∈ merge_weather df w ->
  base row ∈ df /\ exists c, stop_city (base row) = VStr c /\ w !! c = Some (window row).
Proof.
  unfold merge_weather. intros H. apply list_elem_of_omap in H as (s & Hs & Hrow).
  destruct (stop_city s) as [| |c|] eqn:Hc; try done.
  destruct (w !! c) as [win|] eqn:Hw; [|done].
  injection Hrow as <-. simpl. split; [done|]. by exists c.
Qed.

(** What holds of every finalized route. *)
Lemma finalized_route_facts dist fetch normals d c t edits r :
  update_route_table dist fetch normals d c t (Some edits) = Ok (Some r) ->
  exists route edited,
    get_route dist d c t = Ok route /\
    for_each apply_change (iloc_keep (deleted_rows edits) route) (edited_cells edits)
      = Ok edited /\
    recompute_arrival_dates edited = Ok (base <$> r) /\
    (forall s, (base <$> r) !! 0%nat = Some s -> arrival_date s = VDate d) /\
    Forall (fun row => made_window (window row) /\
                       exists w, stop_answered fetch normals w (base row)) r.
Proof.
  intros H. apply update_route_table_Ok in H
    as (route & df & df' & w & Hroute & Hdf & Hdf' & Hw & -> & Hbase).
  exists route, df. rewrite Hbase. split; [done|]. split; [done|]. split; [done|].
  apply weather_loop_facts in Hw as (Hmade & _ & Hans); [|apply map_Forall_empty].
  split.
  - intros s Hs.
    pose proof (recompute_arrival_dates_Ok df df' Hdf') as (_ & _ & Hzero).
    rewrite Hzero in Hs.
    assert (Hdate : exists o, arrival_date s = VDate o).
    { rewrite <- Hzero in Hs. rewrite Forall_forall in Hans.
      destruct (Hans s) as (o & ? & ? & ? & _); [by eapply list_elem_of_lookup_2|by exists o]. }
    destruct Hdate as [o Ho]. rewrite Ho. f_equal.
    assert (Hall : Forall (start_or_edited d) df).
    { eapply apply_changes_start_or_edited; [|exact Hdf].
      apply Forall_forall. intros x Hx. apply iloc_keep_subseteq in Hx.
      apply get_route_fresh in Hroute. rewrite Forall_forall in Hroute.
      destruct (Hroute x Hx) as [Hx1 _]. intros o'. rewrite Hx1. by intros [= <-]. }
    rewrite Forall_forall in Hall. apply (Hall s); [|done].
    by eapply list_elem_of_lookup_2.
  - apply Forall_forall. intros row Hrow.
    apply merge_weather_rows in Hrow as (Hin & c' & Hc' & Hwin). split.
    + by apply (Hmade c').
    + exists w. rewrite Forall_forall in Hans. by apply Hans.
Qed.

(** *** Arrival dates as sums of travel days *)




(** *** Deleting rows *)

Lemma omap_cons_eq {A B} (f : A -> option B) x l :
  omap f (x :: l) = match f x with Some y => y :: omap f l | None => omap f l end.
Proof. reflexivity. Qed.

Lemma filter_all {A} (P : A -> Prop) `{forall x, Decision (P x)} (l : list A) :
  Forall P l -> filter P l = l.
Proof.
  induction 1 as [|x l Hx _ IH]; [done|]. rewrite filter_cons_True by done. by rewrite IH.
Qed.

Lemma omap_lookup_seq {A} (l : list A) (a m : nat) :
  omap (fun i : nat => l !! i) (seq a m) = take m (drop a l).
Proof.
  revert a. induction m as [|m IH]; intros a; [done|].
  simpl seq. rewrite omap_cons_eq, IH.
  destruct (l !! a) as [x|] eqn:Hx.
  - by rewrite (drop_S l x a Hx).
  - apply lookup_ge_None in Hx. rewrite !drop_ge by lia. by rewrite !take_nil.
Qed.

Lemma omap_lookup_filter_sublist {A} (P : nat -> Prop) `{forall i, Decision (P i)}
    (l : list A) (a m : nat) :
  omap (fun i : nat => l !! i) (filter P (seq a m)) `sublist_of` drop a l.
Proof.
  revert a. induction m as [|m IH]; intros a; [apply sublist_nil_l|].
  simpl seq. destruct (l !! a) as [x|] eqn:Hx.
  - rewrite (drop_S l x a Hx). destruct (decide (P a)).
    + rewrite filter_cons_True by done. rewrite omap_cons_eq, Hx. by apply sublist_skip.
    + rewrite filter_cons_False by done. by apply sublist_cons.
  - apply lookup_ge_None in Hx. rewrite drop_ge by lia.
    specialize (IH (S a)). rewrite drop_ge in IH by lia.
    destruct (decide (P a)).
    + rewrite filter_cons_True by done. rewrite omap_cons_eq.
      apply lookup_ge_None in Hx. by rewrite Hx.
    + by rewrite filter_cons_False.
Qed.

Lemma iloc_keep_out_of_range (deleted : list Z) (route_df : list stop) :
  (forall z, z ∈ deleted -> z < 0 \/ Z.of_nat (length route_df) <= z) ->
  iloc_keep deleted route_df = route_df.
Proof.
  intros Hout. unfold iloc_keep.
  assert (Hall : filter (fun i : nat => Z.of_nat i ∉ deleted) (seq 0 (length route_df))
                 = seq 0 (length route_df)).
  { apply filter_all. apply Forall_forall. intros i Hi Hin.
    apply elem_of_seq in Hi. destruct (Hout _ Hin); lia. }
  rewrite Hall, omap_lookup_seq, drop_0. apply take_ge. lia.
Qed.

(** X5: deleting rows keeps the remaining stops in their order; a stop
    whose position is not listed stays; positions that are negative or
    beyond the end are ignored, without any error. *)
Theorem iloc_keep_drops_listed_positions_only
    (deleted : list Z) (route_df : list stop) :
  iloc_keep deleted route_df `sublist_of` route_df /\
  (forall (i : nat) s, route_df !! i = Some s -> Z.of_nat i ∉ deleted ->
     s ∈ iloc_keep deleted route_df) /\
  ((forall z, z ∈ deleted -> z < 0 \/ Z.of_nat (length route_df) <= z) ->
   iloc_keep deleted route_df = route_df).
Proof.
  split; [|split].
  - apply (omap_lookup_filter_sublist _ route_df 0).
  - intros i s Hs Hi. unfold iloc_keep. apply list_elem_of_omap. exists i. split; [|done].
    apply list_elem_of_filter. split; [done|].
    apply elem_of_seq. apply lookup_lt_Some in Hs. lia.
  - apply iloc_keep_out_of_range.
Qed.

(** *** No edits at all *)

Lemma set_arrival_date_same s : set_arrival_date (arrival_date s) s = s.
Proof. by destruct s. Qed.

Lemma arrival_step_fresh d df (i : nat) df' :
  Forall (fresh_stop d) df -> arrival_step df i = Ok df' -> df' = df.
Proof.
  intros Hall H. apply arrival_step_Ok in H as (prev & a & n & Hprev & Ha & Hn & ->).
  rewrite Forall_forall in Hall.
  destruct (Hall prev) as [Ha' Hn']; [by eapply list_elem_of_lookup_2|].
  rewrite Ha' in Ha. rewrite Hn' in Hn. injection Ha as <-. injection Hn as <-.
  apply list_eq. intros j. destruct (decide (i = j)) as [->|Hne].
  - rewrite list_lookup_alter_eq. destruct (df !! j) as [s|] eqn:Hs; [|done].
    simpl. f_equal. destruct (Hall s) as [Hs1 _]; [by eapply list_elem_of_lookup_2|].
    rewrite Z.add_0_r, <- Hs1. apply set_arrival_date_same.
  - by apply list_lookup_alter_ne.
Qed.

Lemma recompute_arrival_dates_fresh d df df' :
  Forall (fresh_stop d) df -> recompute_arrival_dates df = Ok df' -> df' = df.
Proof.
  intros Hall. unfold recompute_arrival_dates.
  apply (for_each_inv (fun s => s = df)); [|done].
  intros s i s' -> Hstep. by eapply arrival_step_fresh.
Qed.

(** X6: with edit state that deletes nothing and edits nothing, the
    finalized route is the route of [get_route] with the weather columns
    added: no cell of the route columns changes. *)
Theorem update_route_table_with_empty_edits
    (dist : Q * Q -> list (Q * Q) -> result Q)
    (fetch : string -> Z -> Z -> Z -> result (list daily_row))
    (normals : gmap string city_normal)
    (d : Z) (c : string) (t : list city_row) (r : list route_row) :
  update_route_table dist fetch normals d c t
    (Some {| deleted_rows := []; edited_cells := [] |}) = Ok (Some r) ->
  get_route dist d c t = Ok (base <$> r).
Proof.
  intros H. apply finalized_route_facts in H as (route & edited & Hroute & Hed & Hrec & _).
  simpl in Hed. injection Hed as <-.
  assert (Hkeep : iloc_keep [] route = route).
  { apply iloc_keep_out_of_range. by intros z Hz%elem_of_nil. }
  rewrite Hkeep in Hrec.
  apply (recompute_arrival_dates_fresh d) in Hrec; [by rewrite Hrec|].
  by eapply get_route_fresh.
Qed.

(** *** What a finalized route holds *)

(** X7: every stop of a finalized route has a city that is a key of the
    weather-normals cache and a date as arrival date: a route with a city
    unknown to the cache is never returned. *)
Theorem finalized_stops_are_cached_cities
    (dist : Q * Q -> list (Q * Q) -> result Q)
    (fetch : string -> Z -> Z -> Z -> result (list daily_row))
    (normals : gmap string city_normal)
    (d : Z) (c : string) (t : list city_row) (ss : option table_edits)
    (r : list route_row) :
  update_route_table dist fetch normals d c t ss = Ok (Some r) ->
  Forall (fun row => exists name cn o,
            stop_city (base row) = VStr name /\ normals !! name = Some cn /\
            arrival_date (base row) = VDate o) r.
Proof.
  intros H. destruct ss as [edits|].
  2:{ unfold update_route_table in H. destruct (get_route dist d c t); done. }
  apply finalized_route_facts in H as (_ & _ & _ & _ & _ & _ & Hrows).
  eapply Forall_impl; [exact Hrows|].
  intros row (_ & w & o & name & cn & Ho & Hname & Hcn & _). by exists name, cn, o.
Qed.

Lemma answered_not_leap_day fetch station_id o :
  answered fetch station_id o -> ~ (date_month o = 2 /\ date_day o = 29).
Proof.
  intros [avgs H] [Hm Hd]. rewrite Hm, Hd in H.
  assert (Hleap : get_historical_dailies fetch station_id 29 2 = Raise ValueError)
    by reflexivity.
  congruence.
Qed.

(** X8: no stop of a finalized route arrives on a 29 February, nor three
    days before or after one: the weather query for that day raises, and
    no table is returned. *)
Theorem finalized_stops_avoid_leap_day
    (dist : Q * Q -> list (Q * Q) -> result Q)
    (fetch : string -> Z -> Z -> Z -> result (list daily_row))
    (normals : gmap string city_normal)
    (d : Z) (c : string) (t : list city_row) (ss : option table_edits)
    (r : list route_row) :
  update_route_table dist fetch normals d c t ss = Ok (Some r) ->
  Forall (fun row => exists o,
            arrival_date (base row) = VDate o /\
            Forall (fun k => ~ (date_month (o + k) = 2 /\ date_day (o + k) = 29))
                   [-3; 0; 3]) r.
Proof.
  intros H. destruct ss as [edits|].
  2:{ unfold update_route_table in H. destruct (get_route dist d c t); done. }
  apply finalized_route_facts in H as (_ & _ & _ & _ & _ & _ & Hrows).
  eapply Forall_impl; [exact Hrows|].
  intros row (_ & w & o & name & cn & Ho & _ & _ & _ & Hpre & Hon & Hpost).
  exists o. split; [done|].
  repeat constructor.
  - replace (o + -3) with (o - 3) by lia. exact (answered_not_leap_day _ _ _ Hpre).
  - rewrite Z.add_0_r. exact (answered_not_leap_day _ _ _ Hon).
  - exact (answered_not_leap_day _ _ _ Hpost).
Qed.

(** *** Reading the weather cells back *)

Lemma extract_window_text x target pre on post :
  x !! target = Some (VStr (weather_window_str pre on post)) ->
  extract_middle_target x target = Ok (reading_value on).
Proof.
  intros Hx. unfold extract_middle_target. rewrite Hx. unfold weather_window_str.
  rewrite middle_text_window by (by apply repr_reading_free).
  simpl. apply py_float_repr_reading.
Qed.

Lemma made_window_cells w :
  made_window w ->
  is_window_text (w_tavg w) /\ is_window_text (w_tmin w) /\ is_window_text (w_tmax w) /\
  is_window_text (w_prcp w) /\ is_window_text (w_snow w).
Proof.
  intros (a & b & c & ->). unfold make_window. simpl.
  repeat split; by eexists _, _, _.
Qed.

(** X9: every weather cell of a finalized route reads back: for each of
    the five targets and each row, [extract_middle_target] applied to a
    Series that carries the row's columns returns a number or NaN, and
    never raises. *)
Theorem finalized_weather_cells_parse
    (dist : Q * Q -> list (Q * Q) -> result Q)
    (fetch : string -> Z -> Z -> Z -> result (list daily_row))
    (normals : gmap string city_normal)
    (d : Z) (c : string) (t : list city_row) (ss : option table_edits)
    (r : list route_row) :
  update_route_table dist fetch normals d c t ss = Ok (Some r) ->
  forall row target (x : gmap string pyval),
    row ∈ r -> target ∈ weather_targets -> route_row_series row ⊆ x ->
    exists on, extract_middle_target x target = Ok (reading_value on).
Proof.
  intros H row target x Hrow Htarget Hsub. destruct ss as [edits|].
  2:{ unfold update_route_table in H. destruct (get_route dist d c t); done. }
  apply finalized_route_facts in H as (_ & _ & _ & _ & _ & _ & Hrows).
  rewrite Forall_forall in Hrows. destruct (Hrows row Hrow) as [Hmade _].
  apply made_window_cells in Hmade as (H1 & H2 & H3 & H4 & H5).
  assert (Hcell : forall s, route_row_series row !! target = Some (VStr s) ->
            is_window_text s -> exists on, extract_middle_target x target = Ok (reading_value on)).
  { intros s Hs (pre & on & post & ->). exists on.
    apply extract_window_text with (pre := pre) (post := post).
    by eapply lookup_weaken. }
  unfold weather_targets in Htarget.
  repeat (apply elem_of_cons in Htarget as [->|Htarget];
          [eapply Hcell; [reflexivity|done]|]).
  by apply elem_of_nil in Htarget.
Qed.

(** *** Positions of a cell edit *)



(** *** The arrival-date pass reads row 0 and the travel days only *)

Lemma stop_eq_columns s1 s2 :
  edit_columns s1 = edit_columns s2 -> arrival_date s1 = arrival_date s2 -> s1 = s2.
Proof.
  destruct s1, s2. unfold edit_columns. simpl. intros [= -> -> ->] ->. done.
Qed.

Lemma agree_upto_lookup (a : nat) df1 df2 (k : nat) :
  agree_upto a df1 df2 -> (k < a)%nat -> df1 !! k = df2 !! k.
Proof.
  intros [Htake _] Hk.
  rewrite <- (lookup_take_lt df1 a k), <- (lookup_take_lt df2 a k) by done.
  by rewrite Htake.
Qed.

Lemma agree_upto_length (a : nat) df1 df2 :
  agree_upto a df1 df2 -> length df1 = length df2.
Proof.
  intros [_ Hcols].
  by rewrite <- (length_fmap edit_columns df1), Hcols, length_fmap.
Qed.

Lemma arrival_step_agree (a : nat) df1 df2 :
  (1 <= a)%nat -> (a < length df1)%nat -> agree_upto a df1 df2 ->
  match arrival_step df1 a, arrival_step df2 a with
  | Ok x, Ok y => agree_upto (S a) x y
  | Raise e1, Raise e2 => e1 = e2
  | _, _ => False
  end.
Proof.
  intros Ha Hlt Hagree. unfold arrival_step.
  rewrite <- (agree_upto_lookup a df1 df2 (a - 1) Hagree) by lia.
  destruct (df1 !! (a - 1)%nat) as [prev|]; [|done].
  destruct (timedelta (days_to_city prev)) as [n|e]; simpl; [|done].
  destruct (date_add (arrival_date prev) n) as [v|e]; simpl; [|done].
  pose proof (agree_upto_length _ _ _ Hagree) as Hlen.
  destruct Hagree as [Htake Hcols].
  destruct (lookup_lt_is_Some_2 df1 a Hlt) as [x1 Hx1].
  destruct (lookup_lt_is_Some_2 df2 a) as [x2 Hx2]; [lia|].
  split.
  - rewrite (take_S_r _ a (set_arrival_date v x1))
      by (by rewrite list_lookup_alter_eq, Hx1).
    rewrite (take_S_r (alter _ a df2) a (set_arrival_date v x2))
      by (by rewrite list_lookup_alter_eq, Hx2).
    rewrite !take_alter by lia. rewrite Htake. f_equal. f_equal.
    apply stop_eq_columns; [|done].
    assert (Hc : edit_columns <$> df1 !! a = edit_columns <$> df2 !! a)
      by (by rewrite <- !list_lookup_fmap, Hcols).
    rewrite Hx1, Hx2 in Hc. simpl in Hc.
    change (edit_columns (set_arrival_date v x1)) with (edit_columns x1).
    change (edit_columns (set_arrival_date v x2)) with (edit_columns x2).
    congruence.
  - by rewrite !fmap_alter_same by done.
Qed.

Lemma arrival_loop_agree (m a : nat) df1 df2 :
  (1 <= a)%nat -> ((0 < m)%nat -> (a + m <= length df1)%nat) -> agree_upto a df1 df2 ->
  match for_each arrival_step df1 (seq a m), for_each arrival_step df2 (seq a m) with
  | Ok x, Ok y => agree_upto (a + m) x y
  | Raise e1, Raise e2 => e1 = e2
  | _, _ => False
  end.
Proof.
  revert a df1 df2. induction m as [|m IH]; intros a df1 df2 Ha Hlen Hagree; simpl.
  - by rewrite Nat.add_0_r.
  - pose proof (arrival_step_agree a df1 df2 Ha ltac:(lia) Hagree) as Hstep.
    destruct (arrival_step df1 a) as [x|e1] eqn:H1;
      destruct (arrival_step df2 a) as [y|e2] eqn:H2; simpl; try done.
    replace (a + S m)%nat with (S a + m)%nat by lia.
    apply IH; [lia| |done].
    intros Hm. apply arrival_step_Ok in H1 as (? & ? & ? & _ & _ & _ & ->).
    rewrite length_alter. lia.
Qed.

(** X11: the arrival-date pass depends on the arrival date of row 0 and
    on the three editor columns only: two frames that agree on these give
    the same result or the same exception, so that an edit written to the
    arrival date of a later stop is without effect. *)
Theorem arrival_pass_ignores_later_arrival_dates (df1 df2 : list stop) :
  edit_columns <$> df1 = edit_columns <$> df2 ->
  arrival_date <$> df1 !! 0%nat = arrival_date <$> df2 !! 0%nat ->
  recompute_arrival_dates df1 = recompute_arrival_dates df2.
Proof.
  intros Hcols Hzero.
  assert (Hlen : length df1 = length df2)
    by (by rewrite <- (length_fmap edit_columns df1), Hcols, length_fmap).
  assert (Hagree : agree_upto 1 df1 df2).
  { split; [|done].
    assert (Hc : edit_columns <$> df1 !! 0%nat = edit_columns <$> df2 !! 0%nat)
      by (by rewrite <- !list_lookup_fmap, Hcols).
    destruct df1 as [|x1 df1], df2 as [|x2 df2]; simpl in *; try done.
    f_equal. injection Hc as Hc1 Hc2 Hc3. injection Hzero as Hzero.
    apply stop_eq_columns; [|done]. unfold edit_columns. congruence. }
  unfold recompute_arrival_dates. rewrite <- Hlen.
  pose proof (arrival_loop_agree (length df1 - 1) 1 df1 df2 ltac:(lia) ltac:(lia) Hagree)
    as Hloop.
  destruct (for_each arrival_step df1 _) as [x|e1] eqn:H1;
    destruct (for_each arrival_step df2 _) as [y|e2] eqn:H2; try done; [|by subst].
  f_equal. destruct Hloop as [Htake Hc].
  assert (Hx : length x = length df1).
  { pose proof H1 as H1'. apply arrival_loop in H1' as (_ & Hcx & _); [|lia|lia|intros; lia].
    by rewrite <- (length_fmap edit_columns x), Hcx, length_fmap. }
  assert (Hy : length y = length x)
    by (by rewrite <- (length_fmap edit_columns y), <- Hc, length_fmap).
  destruct (decide (length df1 = 0)%nat) as [Hz|Hnz].
  - destruct x, y; simpl in *; try lia. done.
  - rewrite <- (take_ge x (1 + (length df1 - 1))) by lia.
    rewrite <- (take_ge y (1 + (length df1 - 1))) by lia. done.
Qed.

(** *** Removing a city *)

Lemma remove_info_old_city_eq panam_cities (city_normals : gmap string city_normal)
    old_city old_country :
  remove_info_old_city panam_cities city_normals old_city old_country =
  (filter (fun r => ~ (city r = old_city /\ country r = old_country)) panam_cities,
   delete old_city city_normals).
Proof.
  unfold remove_info_old_city. f_equal.
  destruct (decide (old_city ∈ dom city_normals)) as [Hd|Hd]; [done|].
  symmetry. apply delete_id. by apply not_elem_of_dom.
Qed.

(** X12: [remove_info_old_city] leaves no cache entry of the city name
    and no table row of the (country, city) pair, keeps every other row
    and entry, and changes nothing when it is applied a second time. *)
Theorem remove_info_old_city_postcondition
    (panam_cities : list city_row) (city_normals : gmap string city_normal)
    (old_city old_country : string) :
  let out := remove_info_old_city panam_cities city_normals old_city old_country in
  out.2 !! old_city = None /\
  (forall c, c <> old_city -> out.2 !! c = city_normals !! c) /\
  (forall r, r ∈ out.1 <->
             r ∈ panam_cities /\ ~ (city r = old_city /\ country r = old_country)) /\
  out.1 `sublist_of` panam_cities /\
  remove_info_old_city out.1 out.2 old_city old_country = out.
Proof.
  intros out. unfold out. rewrite remove_info_old_city_eq. simpl.
  split; [apply lookup_delete_eq|].
  split; [intros c Hc; by apply lookup_delete_ne|].
  split; [intros r; rewrite list_elem_of_filter; tauto|].
  split; [apply sublist_filter|].
  rewrite remove_info_old_city_eq. f_equal.
  - apply filter_all. apply Forall_forall. intros r Hr.
    by apply list_elem_of_filter in Hr as [? _].
  - apply delete_id. apply lookup_delete_eq.
Qed.

Lemma list_remove_first_not_in (x : string) (l : list string) :
  NoDup l -> x ∉ list_remove_first x l.
Proof.
  induction l as [|y l IH]; intros Hnd; simpl; [apply not_elem_of_nil|].
  apply NoDup_cons in Hnd as [Hy Hnd].
  destruct (decide (y = x)) as [->|Hne]; [done|].
  apply not_elem_of_cons. split; [congruence|by apply IH].
Qed.

(** X13: after a successful removal of a city that the catalog listed
    once, removing it again raises [ValueError]: the second call finds
    the country's list without the city. *)
Theorem remove_city_twice_fails
    (cities : gmap string (list string)) (panam_cities : list city_row)
    (city_normals : gmap string city_normal) (old_country old_city : string)
    (l : list string) :
  cities !! old_country = Some l -> old_city ∈ l -> NoDup l ->
  exists cities2 table2 normals2,
    remove_city cities panam_cities city_normals old_country old_city
      = Ok (cities2, table2, normals2) /\
    remove_city cities2 table2 normals2 old_country old_city = Raise ValueError.
Proof.
  intros Hc Hl Hnd. unfold remove_city at 1, remove_info_old_city at 1.
  rewrite Hc, decide_True by done.
  eexists _, _, _. split; [reflexivity|].
  unfold remove_city, remove_info_old_city. rewrite lookup_insert_eq.
  rewrite decide_False; [done|]. by apply list_remove_first_not_in.
Qed.

(** *** Adding a city *)

Section AddCityFacts.
Variable read_geodata : string -> result (list geo_row).
Variable nearby_stations : Q -> Q -> result (list string).
Variable Normals_fetch : string -> Z -> Z -> result normals_frame.

Lemma add_city_catalog cities panam_cities city_normals new_country new_city l out :
  cities !! new_country = Some l ->
  add_city read_geodata nearby_stations Normals_fetch
           cities panam_cities city_normals new_country new_city = out ->
  out.1.1 = <[new_country := l ++ [new_city]]> cities /\
  (out.1.2, out.2) =
    add_info_new_city read_geodata nearby_stations Normals_fetch
                      panam_cities city_normals new_city new_country.
Proof.
  intros Hc <-. unfold add_city. rewrite Hc.
  by destruct (add_info_new_city _ _ _ _ _ _ _).
Qed.

Lemma add_info_new_city_Ok panam_cities city_normals new_city new_country normals2 table2 :
  add_info_new_city read_geodata nearby_stations Normals_fetch
                    panam_cities city_normals new_city new_country = (normals2, Ok table2) ->
  exists geodata x cn tavg,
    read_geodata new_country = Ok geodata /\
    filter (fun r => city r = new_city) (label_geodata new_country geodata) !! 0%nat = Some x /\
    get_normals_per_city nearby_stations Normals_fetch x = Ok cn /\
    normals2 = <[new_city := cn]> city_normals /\
    Normals cn !! "tavg" = Some tavg /\
    ((size tavg = 0%nat /\ table2 = panam_cities) \/
     (size tavg <> 0%nat /\
      table2 = panam_cities ++
               filter (fun r => city r = new_city) (label_geodata new_country geodata))).
Proof.
  unfold add_info_new_city.
  destruct (read_geodata new_country) as [geodata|e]; [|by intros [= _ ?]].
  destruct (filter _ _ !! 0%nat) as [x|] eqn:Hx; [|by intros [= _ ?]].
  destruct (get_normals_per_city _ _ x) as [cn|e] eqn:Hcn; [|by intros [= _ ?]].
  destruct (Normals cn !! "tavg") as [tavg|] eqn:Htavg; [|by intros [= _ ?]].
  destruct (decide (size tavg = 0%nat)) as [Hz|Hnz]; intros [= <- <-];
    exists geodata, x, cn, tavg; repeat split; try done; [by left|by right].
Qed.
End AddCityFacts.

(** *** Dictionaries built from pairs *)

Lemma dict_of_pairs_snoc {K V} `{Countable K} (l : list (K * V)) p :
  dict_of_pairs (l ++ [p]) = <[p.1 := p.2]> (dict_of_pairs l).
Proof. unfold dict_of_pairs. by rewrite foldl_app. Qed.

Lemma dict_of_pairs_empty {K V} `{Countable K} (l : list (K * V)) :
  dict_of_pairs l = ∅ <-> l = [].
Proof.
  split; [|by intros ->].
  destruct l as [|p l _] using rev_ind; [done|].
  rewrite dict_of_pairs_snoc. intros Hm. by apply insert_non_empty in Hm.
Qed.

Lemma dict_of_pairs_lookup {K V} `{Countable K} (l : list (K * V)) k v :
  dict_of_pairs l !! k = Some v -> (k, v) ∈ l.
Proof.
  induction l as [|p l IH] using rev_ind; [done|].
  rewrite dict_of_pairs_snoc. destruct (decide (p.1 = k)) as [<-|Hne].
  - rewrite lookup_insert_eq. intros [= <-]. apply elem_of_app. right.
    destruct p. apply list_elem_of_singleton. done.
  - rewrite lookup_insert_ne by done. intros Hk. apply elem_of_app. left. auto.
Qed.

Lemma frame_to_dict_column data col d :
  frame_to_dict data !! col = Some d -> (d = ∅ <-> nf_rows data = []).
Proof.
  unfold frame_to_dict. intros Hd. apply dict_of_pairs_lookup in Hd.
  apply list_elem_of_fmap in Hd as (c & [= -> ->] & _).
  rewrite dict_of_pairs_empty. split; [apply fmap_nil_inv|by intros ->].
Qed.

Section NormalsFacts.
Variable nearby_stations : Q -> Q -> result (list string).
Variable Normals_fetch : string -> Z -> Z -> result normals_frame.

Lemma get_normals_per_city_Ok x cn :
  get_normals_per_city nearby_stations Normals_fetch x = Ok cn ->
  exists station station_id data,
    nearby_stations (lat x) (lng x) = Ok station /\
    station !! 0%nat = Some station_id /\
    Normals_fetch station_id 1991 2020 = Ok data /\
    cn = {| Station_ID := station_id; Normals := frame_to_dict data;
            Timespan := "1991-2020";
            Missing := bool_decide (length (nf_rows data) = 0%nat) |}.
Proof.
  unfold get_normals_per_city. intros H.
  apply bind_Ok in H as (station & Hs & H).
  apply bind_Ok in H as (station_id & Hid & H).
  apply bind_Ok in H as (data & Hd & H).
  injection H as <-. exists station, station_id, data. repeat split; try done.
  unfold py_index in Hid. cbn [Z.ltb Z.compare Z.leb andb] in Hid.
  destruct (0 <? Z.of_nat (length station)); [|done].
  change (Z.to_nat 0) with 0%nat in Hid.
  by destruct (station !! 0%nat); [injection Hid as ->|].
Qed.

(** X14: the record returned for a city always names the period
    1991-2020, and its [Missing] flag is set exactly when its normals
    are empty, whichever column is looked at. *)
Theorem missing_flag_iff_empty_normals (x : city_row) (cn : city_normal) :
  get_normals_per_city nearby_stations Normals_fetch x = Ok cn ->
  Timespan cn = "1991-2020" /\
  forall col d, Normals cn !! col = Some d -> (Missing cn = true <-> d = ∅).
Proof.
  intros H. apply get_normals_per_city_Ok in H as (station & id & data & _ & _ & _ & ->).
  split; [done|]. intros col d Hd. cbn in *.
  rewrite (frame_to_dict_column _ _ _ Hd), bool_decide_eq_true.
  apply length_zero_iff_nil.
Qed.
End NormalsFacts.

(** *** Adding a city, continued *)

Lemma list_remove_first_snoc (c : string) (l : list string) :
  c ∉ l -> list_remove_first c (l ++ [c]) = l.
Proof.
  induction l as [|a l IH]; intros Hc; simpl.
  - by rewrite decide_True.
  - rewrite decide_False by (intros ->; apply Hc; left).
    rewrite IH; [done|]. intros ?; apply Hc; by right.
Qed.

Lemma filter_none {A} (P : A -> Prop) `{forall x, Decision (P x)} (l : list A) :
  Forall (fun x => ~ P x) l -> filter P l = [].
Proof.
  induction 1 as [|x l Hx _ IH]; [done|]. by rewrite filter_cons_False.
Qed.

Lemma label_geodata_country new_country geodata r :
  r ∈ label_geodata new_country geodata -> country r = new_country.
Proof. unfold label_geodata. intros (g & -> & _)%list_elem_of_fmap. done. Qed.

Section AddCityTheorems.
Variable read_geodata : string -> result (list geo_row).
Variable nearby_stations : Q -> Q -> result (list string).
Variable Normals_fetch : string -> Z -> Z -> result normals_frame.


Lemma add_city_Ok cities panam_cities city_normals new_country new_city
    cities2 normals2 table2 :
  add_city read_geodata nearby_stations Normals_fetch cities panam_cities city_normals new_country new_city
    = (cities2, normals2, Ok table2) ->
  exists l cn tavg rows,
    cities !! new_country = Some l /\
    cities2 = <[new_country := l ++ [new_city]]> cities /\
    get_normals_per_city nearby_stations Normals_fetch <$> head rows = Some (Ok cn) /\
    rows <> [] /\
    (forall r, r ∈ rows -> city r = new_city /\ country r = new_country) /\
    normals2 = <[new_city := cn]> city_normals /\
    Normals cn !! "tavg" = Some tavg /\
    ((tavg = ∅ /\ table2 = panam_cities) \/
     (tavg <> ∅ /\ table2 = panam_cities ++ rows)).
Proof.
  intros H. destruct (cities !! new_country) as [l|] eqn:Hc;
    [|by unfold add_city in H; rewrite Hc in H].
  destruct (add_city_catalog _ _ _ _ _ _ _ _ _ _ Hc H) as [Hcat Hinfo].
  cbn in Hcat, Hinfo. symmetry in Hinfo.
  apply add_info_new_city_Ok in Hinfo
    as (geodata & x & cn & tavg & Hg & Hx & Hcn & -> & Htavg & Hcase).
  exists l, cn, tavg, (filter (fun r => city r = new_city) (label_geodata new_country geodata)).
  split; [done|]. split; [done|].
  split; [by rewrite head_lookup, Hx; cbn; rewrite Hcn|].
  split; [by intros Hnil; rewrite Hnil in Hx|].
  split.
  { intros r [Hr1 Hr2]%list_elem_of_filter. split; [done|].
    by eapply label_geodata_country. }
  split; [done|]. split; [done|].
  destruct Hcase as [[Hz ->]|[Hnz ->]]; [left|right]; (split; [|done]).
  - by apply map_size_empty_iff.
  - by rewrite <- map_size_empty_iff.
Qed.

(** X15: a successful [add_city] keeps the coordinate table and the cache
    consistent, and the new city is in the cache afterwards. *)
Theorem add_city_keeps_consistency
    (cities : gmap string (list string)) (panam_cities : list city_row)
    (city_normals : gmap string city_normal) (new_country new_city : string)
    cities2 normals2 table2 :
  consistent panam_cities city_normals ->
  add_city read_geodata nearby_stations Normals_fetch cities panam_cities city_normals new_country new_city
    = (cities2, normals2, Ok table2) ->
  consistent table2 normals2 /\ is_Some (normals2 !! new_city).
Proof.
  intros [Hrows Hkeys] H.
  apply add_city_Ok in H
    as (l & cn & tavg & rows & _ & _ & _ & Hne & Hrows2 & -> & Htavg & Hcase).
  split; [|by rewrite lookup_insert_eq].
  assert (Hold : forall r, r ∈ panam_cities ->
            is_Some (<[new_city := cn]> city_normals !! city r)).
  { intros r Hr. destruct (decide (city r = new_city)) as [->|Hn].
    - by rewrite lookup_insert_eq.
    - rewrite lookup_insert_ne by done. auto. }
  split.
  - intros r Hr. destruct Hcase as [[_ ->]|[_ ->]]; [auto|].
    apply elem_of_app in Hr as [Hr|Hr]; [auto|].
    apply Hrows2 in Hr as [-> _]. by rewrite lookup_insert_eq.
  - intros c cn' Hc. destruct (decide (c = new_city)) as [->|Hn].
    + rewrite lookup_insert_eq in Hc. injection Hc as <-.
      destruct Hcase as [[-> _]|[_ ->]]; [by right|left].
      destruct rows as [|r rows]; [done|]. exists r. split.
      * apply elem_of_app. right. left.
      * apply Hrows2. left.
    + rewrite lookup_insert_ne in Hc by done.
      destruct (Hkeys c cn' Hc) as [(r & Hr & Hrc)|Hex]; [left|by right].
      exists r. split; [|done].
      destruct Hcase as [[_ ->]|[_ ->]]; [done|]. apply elem_of_app. by left.
Qed.

(** X16: the city is appended to the coordinate table exactly when the
    record cached for it is not flagged [Missing]; the rows appended are
    rows of the geodata with the city's name and country, one at
    least. *)
Theorem add_city_lists_city_unless_missing
    (cities : gmap string (list string)) (panam_cities : list city_row)
    (city_normals : gmap string city_normal) (new_country new_city : string)
    cities2 normals2 table2 :
  add_city read_geodata nearby_stations Normals_fetch cities panam_cities city_normals new_country new_city
    = (cities2, normals2, Ok table2) ->
  exists cn, normals2 !! new_city = Some cn /\
    if Missing cn then table2 = panam_cities
    else exists rows, rows <> [] /\ table2 = panam_cities ++ rows /\
           forall r, r ∈ rows -> city r = new_city /\ country r = new_country.
Proof.
  intros H. apply add_city_Ok in H
    as (l & cn & tavg & rows & _ & _ & Hcn & Hne & Hrows2 & -> & Htavg & Hcase).
  exists cn. split; [by rewrite lookup_insert_eq|].
  destruct rows as [|x rows]; [done|]. cbn in Hcn. injection Hcn as Hcn.
  apply get_normals_per_city_Ok in Hcn as (station & id & data & _ & _ & _ & Hrec).
  pose proof (frame_to_dict_column data "tavg" tavg) as Hcol.
  rewrite Hrec in Htavg |- *. cbn in Htavg |- *. specialize (Hcol Htavg).
  case_bool_decide as Hlen.
  - apply length_zero_iff_nil, Hcol in Hlen. by destruct Hcase as [[_ ->]|[? _]].
  - destruct Hcase as [[He _]|[_ ->]].
    + apply Hcol in He. by rewrite He in Hlen.
    + by exists (x :: rows).
Qed.

Lemma add_city_outcome cities panam_cities city_normals new_country new_city l
    cities2 normals2 res :
  cities !! new_country = Some l ->
  add_city read_geodata nearby_stations Normals_fetch cities panam_cities city_normals new_country new_city
    = (cities2, normals2, res) ->
  cities2 = <[new_country := l ++ [new_city]]> cities /\
  (normals2 = city_normals \/ exists cn, normals2 = <[new_city := cn]> city_normals) /\
  match res with
  | Ok table2 =>
      exists rows, (table2 = panam_cities \/ table2 = panam_cities ++ rows) /\
        forall r, r ∈ rows -> city r = new_city /\ country r = new_country
  | Raise e =>
      normals2 = city_normals \/
      (e = KeyError /\ exists cn, normals2 = <[new_city := cn]> city_normals /\
                                  Normals cn !! "tavg" = None)
  end.
Proof.
  intros Hc H. destruct res as [table2|e].
  - apply add_city_Ok in H
      as (l' & cn & tavg & rows & Hc' & -> & _ & _ & Hrows & -> & _ & Hcase).
    rewrite Hc in Hc'. injection Hc' as <-. split; [done|]. split; [eauto|].
    exists rows. split; [|done]. destruct Hcase as [[_ ->]|[_ ->]]; auto.
  - destruct (add_city_catalog _ _ _ _ _ _ _ _ _ _ Hc H) as [Hcat Hinfo].
    cbn in Hcat, Hinfo. split; [done|]. revert Hinfo. unfold add_info_new_city.
    destruct (read_geodata new_country) as [geodata|e']; [|intros [= -> _]; auto].
    destruct (filter _ _ !! 0%nat) as [x|]; [|intros [= -> _]; auto].
    destruct (get_normals_per_city _ _ x) as [cn|e']; [|intros [= -> _]; auto].
    destruct (Normals cn !! "tavg") as [tavg|] eqn:Htavg.
    + by destruct (decide (size tavg = 0%nat)).
    + intros [= -> ->]. split; [eauto|]. right. eauto.
Qed.

(** X17: the catalog is written before anything can fail: when
    [add_city] raises for a country of the catalog, the city is in the
    catalog all the same; the cache is as before, or has a record
    without a [tavg] column for the city and the exception is the
    [KeyError] of that lookup. *)
Theorem failed_add_city_leaves_catalog_entry
    (cities : gmap string (list string)) (panam_cities : list city_row)
    (city_normals : gmap string city_normal) (new_country new_city : string)
    (l : list string) cities2 normals2 e :
  cities !! new_country = Some l ->
  add_city read_geodata nearby_stations Normals_fetch cities panam_cities city_normals new_country new_city
    = (cities2, normals2, Raise e) ->
  cities2 = <[new_country := l ++ [new_city]]> cities /\
  (normals2 = city_normals \/
   (e = KeyError /\ exists cn, normals2 = <[new_city := cn]> city_normals /\
                               Normals cn !! "tavg" = None)).
Proof.
  intros Hc H. destruct (add_city_outcome _ _ _ _ _ _ _ _ _ Hc H) as (? & _ & ?). done.
Qed.

(** X18: removing a city right after adding it restores the catalog, the
    coordinate table and the cache, whether the addition succeeded or
    raised, provided the city was new: not in the country's list, not
    in the cache, and without a row of that name and country. *)
Theorem remove_city_undoes_add_city
    (cities : gmap string (list string)) (panam_cities : list city_row)
    (city_normals : gmap string city_normal) (new_country new_city : string)
    (l : list string) cities2 normals2 res :
  cities !! new_country = Some l ->
  new_city ∉ l ->
  city_normals !! new_city = None ->
  (forall r, r ∈ panam_cities -> ~ (city r = new_city /\ country r = new_country)) ->
  add_city read_geodata nearby_stations Normals_fetch cities panam_cities city_normals new_country new_city
    = (cities2, normals2, res) ->
  remove_city cities2
    (match res with Ok table2 => table2 | Raise _ => panam_cities end)
    normals2 new_country new_city
  = Ok (cities, panam_cities, city_normals).
Proof.
  intros Hc Hl Hn Ht H.
  destruct (add_city_outcome _ _ _ _ _ _ _ _ _ Hc H) as (-> & Hnorm & Hres).
  unfold remove_city, remove_info_old_city. rewrite lookup_insert_eq.
  rewrite decide_True by (apply elem_of_app; right; left).
  rewrite list_remove_first_snoc, insert_insert_eq, insert_id by done.
  f_equal. f_equal.
  - f_equal. assert (Hkeep : filter (fun r => ~ (city r = new_city /\ country r = new_country))
                        panam_cities = panam_cities).
    { apply filter_all. by apply Forall_forall. }
    destruct res as [table2|e]; [|done].
    destruct Hres as (rows & [->| ->] & Hrows); [done|].
    rewrite filter_app, Hkeep, filter_none; [by rewrite app_nil_r|].
    apply Forall_forall. intros r Hr Hnot. by apply Hnot, Hrows.
  - destruct Hnorm as [->|[cn ->]].
    + rewrite decide_False; [done|]. by rewrite not_elem_of_dom.
    + rewrite decide_True by (apply elem_of_dom; by rewrite lookup_insert_eq).
      by rewrite delete_insert_id.
Qed.
End AddCityTheorems.

(** *** The precipitation axis *)

Lemma py_max_fold (x : Q) (l : list Q) :
  let r := foldl (fun m y => if decide (m < y)%Q then y else m) x l in
  r ∈ x :: l /\ (x <= r)%Q /\ forall y, y ∈ l -> (y <= r)%Q.
Proof.
  revert x. induction l as [|a l IH]; intros x; cbn.
  - split; [left|]. split; [apply Qle_refl|]. by intros y Hy%elem_of_nil.
  - destruct (IH (if decide (x < a)%Q then a else x)) as (Hin & Hge & Hall).
    cbn in Hin, Hge, Hall. split; [|split].
    + apply elem_of_cons in Hin as [->|Hin].
      * destruct (decide (x < a)%Q); [right; left|left].
      * by right; right.
    + eapply Qle_trans; [|exact Hge].
      destruct (decide (x < a)%Q); [by apply Qlt_le_weak|apply Qle_refl].
    + intros y [->|Hy]%elem_of_cons; [|auto].
      eapply Qle_trans; [|exact Hge].
      destruct (decide (x < a)%Q) as [|Hn]; [apply Qle_refl|by apply Qnot_lt_le].
Qed.

Lemma py_max_Ok (l : list Q) m :
  py_max l = Ok m -> m ∈ l /\ forall y, y ∈ l -> (y <= m)%Q.
Proof.
  destruct l as [|x l]; [done|]. intros [= <-].
  destruct (py_max_fold x l) as (Hin & Hge & Hall). split; [done|].
  by intros y [->|Hy]%elem_of_cons; [|apply Hall].
Qed.

Lemma py_max_nonempty (l : list Q) : l <> [] -> exists m, py_max l = Ok m.
Proof. destruct l; [done|]. by eexists. Qed.

Lemma apply_rows_Ok_elems {A B} (f : A -> result B) l bs :
  apply_rows f l = Ok bs ->
  (forall a, a ∈ l -> exists b, b ∈ bs /\ f a = Ok b) /\
  (forall b, b ∈ bs -> exists a, a ∈ l /\ f a = Ok b).
Proof.
  intros H%apply_rows_Ok_Forall2. induction H as [|a b l bs Hab _ [IH1 IH2]].
  - split; by intros ? ?%elem_of_nil.
  - split.
    + intros a' [->|Ha]%elem_of_cons; [exists b; split; [left|done]|].
      destruct (IH1 _ Ha) as (b' & ? & ?). exists b'. split; [by right|done].
    + intros b' [->|Hb]%elem_of_cons; [exists a; split; [left|done]|].
      destruct (IH2 _ Hb) as (a' & ? & ?). exists a'. split; [by right|done].
Qed.

Lemma apply_rows_Raise {A B} (f : A -> result B) l e :
  apply_rows f l = Raise e -> exists a, a ∈ l /\ f a = Raise e.
Proof.
  induction l as [|a l IH]; simpl; [done|].
  destruct (f a) as [b|e'] eqn:Hfa; simpl.
  - destruct (apply_rows f l) as [bs|e'']; simpl; [done|]. intros [= ->].
    destruct IH as (a' & ? & ?); [done|]. exists a'. split; [by right|done].
  - intros [= ->]. exists a. split; [left|done].
Qed.

Lemma city_max_prcp_cases (entry : string * city_normal) :
  match Normals entry.2 !! "prcp" with
  | None => city_max_prcp entry = Raise KeyError
  | Some p =>
      if decide (p = ∅) then city_max_prcp entry = Ok None
      else exists m, city_max_prcp entry = Ok (Some m) /\
             (exists k, p !! k = Some m) /\
             forall k v, p !! k = Some v -> (v <= m)%Q
  end.
Proof.
  unfold city_max_prcp. destruct (Normals entry.2 !! "prcp") as [p|]; [|done].
  destruct (decide (p = ∅)) as [->|Hne].
  - by rewrite decide_False by (rewrite map_size_empty; lia).
  - rewrite decide_True
      by (assert (size p <> 0%nat) by (by rewrite map_size_empty_iff); lia).
    destruct (py_max_nonempty (map_to_list p).*2) as [m Hm].
    { intros Hnil%fmap_nil_inv. by apply map_to_list_empty_iff in Hnil. }
    exists m. rewrite Hm. split; [done|]. apply py_max_Ok in Hm as [Hin Hall]. split.
    + apply list_elem_of_fmap in Hin as ([k v] & -> & Hkv).
      exists k. by apply elem_of_map_to_list in Hkv.
    + intros k v Hkv. apply Hall. apply list_elem_of_fmap. exists (k, v).
      split; [done|]. by apply elem_of_map_to_list.
Qed.


(** X20: [get_max_prcp] raises [KeyError] exactly when some cached record
    has no precipitation column, and [ValueError] exactly when every
    record's precipitation normals are empty, an empty cache
    included. *)
Theorem get_max_prcp_errors (city_normals : gmap string city_normal) :
  (get_max_prcp city_normals = Raise KeyError <->
   exists c cn, city_normals !! c = Some cn /\ Normals cn !! "prcp" = None) /\
  (get_max_prcp city_normals = Raise ValueError <->
   forall c cn, city_normals !! c = Some cn -> Normals cn !! "prcp" = Some ∅).
Proof.
  assert (Hkey : forall e, apply_rows city_max_prcp (map_to_list city_normals) = Raise e ->
            e = KeyError /\
            exists c cn, city_normals !! c = Some cn /\ Normals cn !! "prcp" = None).
  { intros e ([c cn] & Hin & He)%apply_rows_Raise.
    apply elem_of_map_to_list in Hin.
    pose proof (city_max_prcp_cases (c, cn)) as Hcase. cbn in Hcase.
    destruct (Normals cn !! "prcp") as [p|] eqn:Hp.
    - destruct (decide (p = ∅)); [congruence|]. destruct Hcase as (? & ? & _). congruence.
    - split; [congruence|]. by exists c, cn. }
  unfold get_max_prcp.
  destruct (apply_rows city_max_prcp (map_to_list city_normals)) as [per_city|e] eqn:Hrows.
  - apply apply_rows_Ok_elems in Hrows as [Hfwd Hbwd]. cbn. split.
    + split.
      * destruct (py_max (omap id per_city)) as [m|e] eqn:Hm; [done|].
        destruct (omap id per_city); [|done]. by injection Hm as <-.
      * intros (c & cn & Hc & Hp).
        destruct (Hfwd (c, cn)) as (b & _ & Hcb); [by apply elem_of_map_to_list|].
        pose proof (city_max_prcp_cases (c, cn)) as Hcase. cbn in Hcase.
        rewrite Hp in Hcase. congruence.
    + split.
      * intros Herr c cn Hc.
        destruct (Hfwd (c, cn)) as (b & Hb & Hcb); [by apply elem_of_map_to_list|].
        pose proof (city_max_prcp_cases (c, cn)) as Hcase. cbn in Hcase.
        destruct (Normals cn !! "prcp") as [p|]; [|congruence].
        destruct (decide (p = ∅)) as [->|_]; [done|].
        destruct Hcase as (mc & Hmc & _). rewrite Hmc in Hcb. injection Hcb as <-.
        assert (Hmem : mc ∈ omap id per_city)
          by (apply list_elem_of_omap; by exists (Some mc)).
        destruct (omap id per_city); [by apply elem_of_nil in Hmem|done].
      * intros Hall. assert (Hnil : omap id per_city = []).
        { apply elem_of_nil_inv. intros m (b & Hb & Hbm)%list_elem_of_omap.
          cbn in Hbm. subst b. destruct (Hbwd _ Hb) as ([c cn] & Hccn & Hcb).
          apply elem_of_map_to_list in Hccn.
          pose proof (city_max_prcp_cases (c, cn)) as Hcase. cbn in Hcase.
          rewrite (Hall _ _ Hccn), decide_True in Hcase by done. congruence. }
        by rewrite Hnil.
  - destruct (Hkey e eq_refl) as [-> (c & cn & Hc & Hp)]. cbn. split.
    + split; [by intros _; exists c, cn|done].
    + split; [done|]. intros Hall. rewrite (Hall _ _ Hc) in Hp. done.
Qed.

(** *** The geodata check *)

(** X21: when the catalog list and the matched geodata have no repeated
    name and every matched row is a city of the list, the check
    compares counts to the right effect: it reports success exactly
    when every city of the list was matched, and otherwise lists
    exactly the unmatched cities, one at least. *)
Theorem check_geodata_verdict
    (relevant_geodata : list city_row) (cities : gmap string (list string))
    (country : string) (l : list string) :
  cities !! country = Some l ->
  NoDup l -> NoDup (city <$> relevant_geodata) ->
  (forall r, r ∈ relevant_geodata -> city r ∈ l) ->
  exists ok unmatched,
    check_geodata relevant_geodata cities country = Ok (ok, unmatched) /\
    (ok = true <-> forall c, c ∈ l -> c ∈ city <$> relevant_geodata) /\
    (forall c, c ∈ unmatched <-> c ∈ l /\ c ∉ city <$> relevant_geodata) /\
    (ok = true <-> unmatched = []).
Proof.
  intros Hc Hl Hnames Hsub. unfold check_geodata. rewrite Hc. cbn zeta.
  assert (Hms : city <$> relevant_geodata ⊆+ l).
  { apply NoDup_submseteq; [done|]. by intros c (r & -> & Hr%Hsub)%list_elem_of_fmap. }
  assert (Hlen : length (city <$> relevant_geodata) = length relevant_geodata)
    by apply length_fmap.
  destruct (decide (length relevant_geodata <> length l)) as [Hne|Heq].
  - assert (Hsome : ~ forall c, c ∈ l -> c ∈ city <$> relevant_geodata).
    { intros Hall. apply Hne.
      apply (NoDup_submseteq _ _ Hl) in Hall. apply submseteq_length in Hall.
      apply submseteq_length in Hms. lia. }
    eexists false, _. split; [done|]. split; [done|]. split.
    + intros c. by rewrite list_elem_of_filter, (comm and).
    + split; [done|]. intros Hnil. destruct Hsome. intros c Hcl.
      destruct (decide (c ∈ city <$> relevant_geodata)) as [|Hn]; [done|].
      assert (Hin : c ∈ filter (fun c => c ∉ city <$> relevant_geodata) l)
        by (by apply list_elem_of_filter).
      rewrite Hnil in Hin. by apply elem_of_nil in Hin.
  - apply dec_stable in Heq.
    assert (Hp : city <$> relevant_geodata ≡ₚ l)
      by (apply submseteq_length_Permutation; [done|lia]).
    exists true, []. split; [done|]. split.
    + split; [|done]. intros _ c Hcl. by rewrite Hp.
    + split; [|done]. intros c. rewrite elem_of_nil. split; [done|].
      intros [Hcl Hn]. apply Hn. by rewrite Hp.
Qed.

(** *** The properties above, on the demo world *)

Lemma demo_final_built :
  update_route_table demo_dist demo_fetch demo_normals demo_start "A" demo_table
    (Some demo_edits) = Ok (Some demo_final).
Proof. vm_compute. reflexivity. Defined.

Lemma demo_table_fresh_D r :
  r ∈ demo_table -> ~ (city r = "D" /\ country r = "X").
Proof.
  intros Hr.
  repeat (apply elem_of_cons in Hr as [->|Hr]; [vm_compute; intros [? _]; congruence|]).
  by apply elem_of_nil in Hr.
Defined.

Lemma get_route_returns_only_for_distinct_names_witness :
  NoDup (city <$> demo_table) /\
  stop_city <$> demo_route ≡ₚ VStr <$> (city <$> demo_table).
Proof.
  apply (get_route_returns_only_for_distinct_names demo_dist demo_start "A").
  - by_evaluation.
  - exact demo_route_built.
Defined.

Lemma get_route_shape_witness :
  length demo_route = S (length demo_table - 1) /\
  Forall (fun s => arrival_date s = VDate demo_start /\ days_to_city s = VInt 0)
         demo_route /\
  (forall s, last demo_route = Some s -> est_dist s = VInt 0) /\
  (forall (k : nat) s, (S k < length demo_route)%nat -> demo_route !! k = Some s ->
     exists q, est_dist s = VStr (py_str_int (py_round q) +:+ " km")).
Proof. exact (get_route_shape _ _ _ _ _ demo_route_built). Defined.



Lemma iloc_keep_drops_listed_positions_only_witness :
  iloc_keep [7; -1] demo_route = demo_route.
Proof.
  destruct (iloc_keep_drops_listed_positions_only [7; -1] demo_route) as (_ & _ & H).
  apply H. intros z Hz.
  apply elem_of_cons in Hz as [->|Hz]; [right; vm_compute; discriminate|].
  apply elem_of_cons in Hz as [->|Hz]; [left; lia|].
  by apply elem_of_nil in Hz.
Defined.

Lemma update_route_table_with_empty_edits_witness :
  get_route demo_dist demo_start "A" demo_table = Ok (base <$> demo_plain).
Proof.
  apply (update_route_table_with_empty_edits demo_dist demo_fetch demo_normals).
  vm_compute. reflexivity.
Defined.

Lemma finalized_stops_are_cached_cities_witness :
  Forall (fun row => exists name cn o,
            stop_city (base row) = VStr name /\ demo_normals !! name = Some cn /\
            arrival_date (base row) = VDate o) demo_final.
Proof.
  exact (finalized_stops_are_cached_cities _ _ _ _ _ _ _ _ demo_final_built).
Defined.

Lemma finalized_stops_avoid_leap_day_witness :
  Forall (fun row => exists o,
            arrival_date (base row) = VDate o /\
            Forall (fun k => ~ (date_month (o + k) = 2 /\ date_day (o + k) = 29))
                   [-3; 0; 3]) demo_final.
Proof.
  exact (finalized_stops_avoid_leap_day _ _ _ _ _ _ _ _ demo_final_built).
Defined.

Lemma finalized_weather_cells_parse_witness :
  exists row on,
    demo_final !! 0%nat = Some row /\
    extract_middle_target (route_row_series row) "tmax" = Ok (reading_value on).
Proof.
  destruct (demo_final !! 0%nat) as [row|] eqn:Hrow; [|by vm_compute in Hrow].
  destruct (finalized_weather_cells_parse _ _ _ _ _ _ _ _ demo_final_built
              row "tmax" (route_row_series row)) as [on Hon].
  - by eapply list_elem_of_lookup_2.
  - by_evaluation.
  - done.
  - by exists row, on.
Defined.


Lemma arrival_pass_ignores_later_arrival_dates_witness :
  recompute_arrival_dates demo_route =
  recompute_arrival_dates (alter (set_arrival_date (VInt 7)) 2%nat demo_route).
Proof.
  apply arrival_pass_ignores_later_arrival_dates; vm_compute; reflexivity.
Defined.

Lemma remove_info_old_city_postcondition_witness :
  (remove_info_old_city demo_table demo_normals "B" "X").2 !! "A" = demo_normals !! "A".
Proof.
  destruct (remove_info_old_city_postcondition demo_table demo_normals "B" "X")
    as (_ & H & _).
  apply H. discriminate.
Defined.

Lemma remove_city_twice_fails_witness :
  exists cities2 table2 normals2,
    remove_city demo_catalog demo_table demo_normals "X" "B"
      = Ok (cities2, table2, normals2) /\
    remove_city cities2 table2 normals2 "X" "B" = Raise ValueError.
Proof.
  apply (remove_city_twice_fails _ _ _ _ _ ["A"; "B"]).
  - vm_compute. reflexivity.
  - by_evaluation.
  - by_evaluation.
Defined.

Lemma missing_flag_iff_empty_normals_witness :
  Timespan demo_new_normal = "1991-2020" /\
  forall col d, Normals demo_new_normal !! col = Some d ->
    (Missing demo_new_normal = true <-> d = ∅).
Proof.
  apply (missing_flag_iff_empty_normals demo_nearby demo_normals_fetch city_D).
  vm_compute. reflexivity.
Defined.

Lemma add_city_keeps_consistency_witness :
  consistent (demo_table ++ [city_D]) (<["D" := demo_new_normal]> demo_normals) /\
  is_Some (<["D" := demo_new_normal]> demo_normals !! "D").
Proof.
  apply (add_city_keeps_consistency demo_read_geodata demo_nearby demo_normals_fetch
           demo_catalog demo_table demo_normals "X" "D" demo_added.1.1).
  - exact demo_consistent.
  - vm_compute. reflexivity.
Defined.

Lemma add_city_lists_city_unless_missing_witness :
  exists cn, <["D" := demo_new_normal]> demo_normals !! "D" = Some cn /\
    if Missing cn then demo_table ++ [city_D] = demo_table
    else exists rows, rows <> [] /\ demo_table ++ [city_D] = demo_table ++ rows /\
           forall r, r ∈ rows -> city r = "D" /\ country r = "X".
Proof.
  apply (add_city_lists_city_unless_missing demo_read_geodata demo_nearby
           demo_normals_fetch demo_catalog demo_table demo_normals "X" "D"
           demo_added.1.1).
  vm_compute. reflexivity.
Defined.

Lemma failed_add_city_leaves_catalog_entry_witness :
  demo_failed.2 = Raise IndexError /\
  demo_failed.1.1 = <["X" := ["A"; "B"] ++ ["Z"]]> demo_catalog /\
  (demo_failed.1.2 = demo_normals \/
   (IndexError = KeyError /\
    exists cn, demo_failed.1.2 = <["Z" := cn]> demo_normals /\
               Normals cn !! "tavg" = None)).
Proof.
  split; [vm_compute; reflexivity|].
  apply (failed_add_city_leaves_catalog_entry demo_read_geodata demo_nearby
           demo_normals_fetch demo_catalog demo_table demo_normals "X" "Z").
  - vm_compute. reflexivity.
  - vm_compute. reflexivity.
Defined.

Lemma remove_city_undoes_add_city_witness :
  remove_city demo_added.1.1 (demo_table ++ [city_D]) demo_added.1.2 "X" "D"
  = Ok (demo_catalog, demo_table, demo_normals).
Proof.
  apply (remove_city_undoes_add_city demo_read_geodata demo_nearby demo_normals_fetch
           demo_catalog demo_table demo_normals "X" "D" ["A"; "B"]
           demo_added.1.1 demo_added.1.2 (Ok (demo_table ++ [city_D]))).
  - vm_compute. reflexivity.
  - by_evaluation.
  - vm_compute. reflexivity.
  - exact demo_table_fresh_D.
  - vm_compute. reflexivity.
Defined.


Lemma get_max_prcp_errors_witness :
  get_max_prcp demo_normals = Raise KeyError /\
  get_max_prcp (∅ : gmap string city_normal) = Raise ValueError.
Proof.
  split.
  - apply (get_max_prcp_errors demo_normals).
    exists "A", (demo_normal "sa"). split; vm_compute; reflexivity.
  - apply (get_max_prcp_errors ∅). intros c cn Hc. by rewrite lookup_empty in Hc.
Defined.

Lemma check_geodata_verdict_witness :
  exists ok unmatched,
    check_geodata [city_A] demo_catalog "X" = Ok (ok, unmatched) /\
    (ok = true <-> forall c, c ∈ ["A"; "B"] -> c ∈ city <$> [city_A]) /\
    (forall c, c ∈ unmatched <-> c ∈ ["A"; "B"] /\ c ∉ city <$> [city_A]) /\
    (ok = true <-> unmatched = []).
Proof.
  apply check_geodata_verdict.
  - vm_compute. reflexivity.
  - by_evaluation.
  - by_evaluation.
  - intros r ->%list_elem_of_singleton. by_evaluation.
Defined.
